(** * minter-go-node: account state, signed checks and the delegation transaction

    A shallow embedding of
      - [core/state/state_object.go]  (package [state]),
      - the signed check              (package [check]),
      - the delegation transaction    (package [transaction]),
    together with the properties of these packages that the node's
    specification states.

    Conventions.
      - [*big.Int] values are [Z]; [uint64], [int64] and [byte] arithmetic
        is on [Z] with the wrap-around written out.
      - [types.CoinSymbol] is a 10-byte array, [vec byte 10].
      - [types.Hash] (32 bytes) and [types.Address] (20 bytes) are the
        big-endian numbers their bytes spell, below [2^256] and [2^160].
      - Go maps are reference values: a [stateObject] holds a location into
        a store of map objects, so that two objects can share one map.
      - Library code that is not part of these packages ([rlp], [crypto],
        [formula]) is taken as a parameter of the section that uses it. *)

From Stdlib Require Import ZArith Lia List Bool.
From Stdlib.Strings Require Import Byte String Ascii.
From stdpp Require Import gmap vector sorting pretty.

Open Scope Z_scope.

(** ** Bytes *)

Global Instance byte_eq_dec : EqDecision byte := Byte.byte_eq_dec.
Global Instance byte_countable : Countable byte :=
  inj_countable Byte.to_N Byte.of_N Byte.of_to_N.

Definition byte_to_Z (b : byte) : Z := Z.of_N (Byte.to_N b).

Definition byte_of_Z (z : Z) : byte :=
  default x00 (Byte.of_N (Z.to_N (z mod 256))).

(** ** [math/big]: the operations of [*big.Int] the packages use *)

Module big.

(** [x.Sign()] *)
Definition Sign (x : Z) : Z := Z.sgn x.

(** [x.Cmp(y)]: -1, 0 or +1 *)
Definition Cmp (x y : Z) : Z :=
  match x ?= y with Lt => -1 | Eq => 0 | Gt => 1 end.

(** [x.BitLen()]: the length of the absolute value in bits, 0 for 0 *)
Definition BitLen (x : Z) : Z :=
  if Z.abs x =? 0 then 0 else Z.log2 (Z.abs x) + 1.

(** [x.Uint64()]: the low 64 bits of the absolute value *)
Definition Uint64 (x : Z) : Z := Z.abs x mod 2 ^ 64.

(** [z.SetBytes(buf)]: [buf] read as a big-endian unsigned integer *)
Definition SetBytes (buf : list byte) : Z :=
  fold_left (fun acc b => acc * 256 + byte_to_Z b) buf 0.

(** [x.Bytes()]: the absolute value as a big-endian byte slice without
    leading zero bytes. *)
Fixpoint Bytes_go (fuel : nat) (n : Z) (acc : list byte) : list byte :=
  match fuel with
  | O => acc
  | S fuel' =>
      if n =? 0 then acc
      else Bytes_go fuel' (n / 256) (byte_of_Z n :: acc)
  end.

Definition Bytes (x : Z) : list byte :=
  Bytes_go (Z.to_nat (BitLen x)) (Z.abs x) [].

(** [x.String()]: the decimal digits, after a minus sign for a negative
    number. *)
Definition String (x : Z) : string := pretty x.

End big.

(** ** Package [types] *)

Module types.

(** [type CoinSymbol [CoinSymbolLength]byte] *)
Definition CoinSymbolLength : nat := 10.
Definition CoinSymbol : Type := vec byte CoinSymbolLength.

(** [c.Bytes()] *)
Definition CoinSymbol_Bytes (c : CoinSymbol) : list byte := vec_to_list c.

Definition CoinSymbol_of_list (l : list byte) : option CoinSymbol :=
  match decide (length l = CoinSymbolLength) with
  | left H => Some (eq_rect _ (vec byte) (list_to_vec l) _ H)
  | right _ => None
  end.

Lemma CoinSymbol_of_to_list (c : CoinSymbol) :
  CoinSymbol_of_list (vec_to_list c) = Some c.
Proof.
  unfold CoinSymbol_of_list.
  destruct (decide _) as [H|H].
  - f_equal. apply vec_to_list_inj2.
    destruct H. simpl. by rewrite vec_to_list_to_vec.
  - by rewrite length_vec_to_list in H.
Qed.

(** [type Address [20]byte], [type Hash [32]byte] *)
Abbreviation Address := Z.
Abbreviation Hash := Z.

(** [types.Big0] *)
Definition Big0 : Z := 0.

End types.

Global Instance CoinSymbol_eq_dec : EqDecision types.CoinSymbol := _.
Global Instance CoinSymbol_countable : Countable types.CoinSymbol | 0 :=
  inj_countable vec_to_list types.CoinSymbol_of_list types.CoinSymbol_of_to_list.

(** The coin symbol spelled by the bytes of a short name, zero-padded on
    the right; it names the coins of the examples. *)
Definition coin_of_bytes (l : list byte) : types.CoinSymbol :=
  default (vreplicate _ x00)
          (types.CoinSymbol_of_list (take 10 (l ++ replicate 10 x00))).

(** ** Errors and results

    A Go function returning [(T, error)] is a [result T]: [Ok v] for
    [(v, nil)], [Err e] for [(zero value, e)].  [Panic] is a run-time panic
    (a nil dereference or a slice bound out of range). *)

Inductive error : Type :=
| errors_New (msg : string).

Inductive result (A : Type) : Type :=
| Ok (a : A)
| Err (e : error)
| Panic.

Arguments Ok {A} a.
Arguments Err {A} e.
Arguments Panic {A}.

(** ** [sort.Slice]

    [sort.Slice(x, less)] reorders [x] so that no later element is [less]
    than an earlier one.  The order of elements that [less] does not
    separate is unspecified in Go; insertion sort (which Go runs on short
    slices) fixes one such order here. *)

Section SortSlice.
Context {A : Type} (less : A -> A -> bool).

Fixpoint sort_insert (x : A) (l : list A) : list A :=
  match l with
  | [] => [x]
  | y :: l' => if less y x then y :: sort_insert x l' else x :: l
  end.

Fixpoint sort_Slice (l : list A) : list A :=
  match l with
  | [] => []
  | x :: l' => sort_insert x (sort_Slice l')
  end.

(** [sorted_by l]: no element is [less] than one that precedes it. *)
Definition sorted_by (l : list A) : Prop :=
  StronglySorted (fun a b => less b a = false) l.

End SortSlice.

(** ** Package [state]: [core/state/state_object.go] *)

Module state.
Import types.

(** The contents of one [map[types.CoinSymbol]*big.Int].  The amounts the
    package stores are results of [new(big.Int)] arithmetic or of decoding,
    never nil pointers. *)
Abbreviation CoinMap := (gmap CoinSymbol Z).

(** A location of a map object; [None] below is the nil map. *)
Abbreviation loc := nat.

(** The dirty callback [func(addr types.Address)] is a closure of the
    owning state manager; a callback is identified by a name and calling
    it is recorded in the trace. *)
Abbreviation callback := nat.

Inductive event : Type :=
| EvBalanceChange (addr : Address) (coin : CoinSymbol) (amount : Z)
| EvDirty (cb : callback) (addr : Address).

(** Go memory as far as the package touches it: the map objects, and the
    calls made to the outside (the balance-change sink and the dirty
    callbacks) in the order they happen. *)
Record memory : Type := mkMemory {
  maps : list CoinMap;
  trace : list event
}.

Definition M (A : Type) : Type := memory -> A * memory.

Definition ret {A} (a : A) : M A := fun mem => (a, mem).

Definition bind {A B} (k : A -> M B) (c : M A) : M B :=
  fun mem => let '(a, mem') := c mem in k a mem'.

Global Instance M_ret : MRet M := @ret.
Global Instance M_bind : MBind M := @bind.

(** [make(map[types.CoinSymbol]*big.Int)] *)
Definition make_map : M loc :=
  fun mem => (length (maps mem), mkMemory (maps mem ++ [∅]) (trace mem)).

(** The contents of the map at [l]; a nil map reads as empty. *)
Definition map_read (l : option loc) : M CoinMap :=
  fun mem => (match l with
              | Some l => default ∅ (maps mem !! l)
              | None => ∅
              end, mem).

(** [m[k] = v] for the map object at [l] *)
Definition map_assign (l : loc) (k : CoinSymbol) (v : Z) : M unit :=
  fun mem => (tt, mkMemory (alter (insert k v) l (maps mem)) (trace mem)).

Definition emit (e : event) : M unit :=
  fun mem => (tt, mkMemory (maps mem) (trace mem ++ [e])).

(** The value a computation returns and the memory it leaves. *)
Definition eval {A} (c : M A) (mem : memory) : A := fst (c mem).
Definition exec {A} (c : M A) (mem : memory) : memory := snd (c mem).

(** [type Balances struct { Data map[types.CoinSymbol]*big.Int }] *)
Record Balances : Type := mkBalances {
  Data : option loc
}.

(** [type Balance struct { Coin types.CoinSymbol; Amount *big.Int }] *)
Record Balance : Type := mkBalance {
  Coin : CoinSymbol;
  Amount : Z
}.

(** [type Account struct { Nonce uint64; Balance Balances; Root types.Hash }] *)
Record Account : Type := mkAccount {
  Account_Nonce : Z;
  Account_Balance : Balances;
  Account_Root : Hash
}.

(** [type stateObject struct] *)
Record stateObject : Type := mkStateObject {
  address : Address;
  data : Account;
  suicided : bool;
  touched : bool;
  deleted : bool;
  onDirty : option callback
}.

(** Assignments to single fields of [*stateObject]. *)
Definition with_Data (s : stateObject) (l : option loc) : stateObject :=
  mkStateObject (address s)
    (mkAccount (Account_Nonce (data s)) (mkBalances l) (Account_Root (data s)))
    (suicided s) (touched s) (deleted s) (onDirty s).

Definition with_Nonce (s : stateObject) (n : Z) : stateObject :=
  mkStateObject (address s)
    (mkAccount n (Account_Balance (data s)) (Account_Root (data s)))
    (suicided s) (touched s) (deleted s) (onDirty s).

Definition with_suicided (s : stateObject) (b : bool) : stateObject :=
  mkStateObject (address s) (data s) b (touched s) (deleted s) (onDirty s).

Definition with_touched (s : stateObject) (b : bool) : stateObject :=
  mkStateObject (address s) (data s) (suicided s) b (deleted s) (onDirty s).

Definition with_deleted (s : stateObject) (b : bool) : stateObject :=
  mkStateObject (address s) (data s) (suicided s) (touched s) b (onDirty s).

Definition with_onDirty (s : stateObject) (f : option callback) : stateObject :=
  mkStateObject (address s) (data s) (suicided s) (touched s) (deleted s) f.

(** [func (s *stateObject) empty() bool] *)
Definition empty (s : stateObject) : bool := false.

(** [big.NewInt(0).SetBytes(k.Bytes())]: the bytes of a coin symbol read
    as a big-endian unsigned integer. *)
Definition coin_value (k : CoinSymbol) : Z :=
  big.SetBytes (CoinSymbol_Bytes k).

(** The comparison handed to [sort.Slice] in [getCoins]. *)
Definition getCoins_less (a b : CoinSymbol) : bool :=
  big.Cmp (coin_value a) (coin_value b) =? 1.

(** [func (b Balances) getCoins() []types.CoinSymbol], with the order in
    which [range b.Data] visits the entries made explicit: Go leaves that
    order unspecified. *)
Definition getCoins_range (visit : list (CoinSymbol * Z)) : list CoinSymbol :=
  let keys :=
    fold_left (fun keys kv =>
                 if big.Cmp (snd kv) Big0 >? 0 then keys ++ [fst kv] else keys)
              visit [] in
  sort_Slice getCoins_less keys.

Definition getCoins (b : Balances) : M (list CoinSymbol) :=
  m ← map_read (Data b);
  ret (getCoins_range (map_to_list m)).

(** [b.Data[k]] as an amount; [getCoins] only yields keys that are present. *)
Definition map_index (m : CoinMap) (k : CoinSymbol) : Z := default 0 (m !! k).

(** The slice [balances] that [EncodeRLP] builds and hands to [rlp.Encode]. *)
Definition EncodeRLP_balances (b : Balances) : M (list Balance) :=
  coins ← getCoins b;
  m ← map_read (Data b);
  ret (fold_left (fun balances k => balances ++ [mkBalance k (map_index m k)])
                 coins []).

(** [for _, v := range balances { b.Data[v.Coin] = v.Amount }] *)
Fixpoint DecodeRLP_loop (l : option loc) (balances : list Balance) : M unit :=
  match balances with
  | [] => ret tt
  | v :: balances' =>
      match l with
      | Some l => map_assign l (Coin v) (Amount v)
      | None => ret tt
      end;;
      DecodeRLP_loop l balances'
  end.

Section RLP.

(** [rlp.Encode(w, balances)] and [s.Decode(&balances)] for a
    [[]Balance]: the bytes written, or the error returned. *)
Variable rlp_Encode : list Balance -> result (list byte).
Variable rlp_Decode : list byte -> result (list Balance).

(** [func (b Balances) EncodeRLP(w io.Writer) error] *)
Definition Balances_EncodeRLP (b : Balances) : M (result (list byte)) :=
  balances ← EncodeRLP_balances b;
  ret (rlp_Encode balances).

(** [func (b *Balances) DecodeRLP(s *rlp.Stream) error]: the receiver after
    the call, and [Ok tt] for a nil error. *)
Definition Balances_DecodeRLP (b : Balances) (input : list byte)
  : M (Balances * result unit) :=
  b ← match Data b with
       | None => l ← make_map; ret (mkBalances (Some l))
       | Some _ => ret b
       end;
  match rlp_Decode input with
  | Err err => ret (b, Err err)
  | Panic => ret (b, Panic)
  | Ok balances =>
      DecodeRLP_loop (Data b) balances;;
      ret (b, Ok tt)
  end.

End RLP.

(** [func newObject(db, address, data, onDirty) *stateObject] *)
Definition newObject (address : Address) (data : Account)
  (onDirty : option callback) : M stateObject :=
  data ← match Data (Account_Balance data) with
          | None =>
              l ← make_map;
              ret (mkAccount (Account_Nonce data) (mkBalances (Some l))
                             (Account_Root data))
          | Some _ => ret data
          end;
  ret (mkStateObject address data false false false onDirty).

(** [func (c *stateObject) Address() types.Address] *)
Definition stateObject_Address (c : stateObject) : Address := address c.

(** The block shared by every mutator:
    [if self.onDirty != nil { self.onDirty(self.Address()); self.onDirty = nil }] *)
Definition fire_onDirty (self : stateObject) : M stateObject :=
  match onDirty self with
  | Some f =>
      emit (EvDirty f (stateObject_Address self));;
      ret (with_onDirty self None)
  | None => ret self
  end.

(** [func (self *stateObject) markSuicided()] *)
Definition markSuicided (self : stateObject) : M stateObject :=
  fire_onDirty (with_suicided self true).

(** [func (c *stateObject) touch()] *)
Definition touch (c : stateObject) : M stateObject :=
  c ← fire_onDirty c;
  ret (with_touched c true).

(** [func (self *stateObject) Balance(coinSymbol) *big.Int] *)
Definition stateObject_Balance (self : stateObject) (coinSymbol : CoinSymbol)
  : M Z :=
  match Data (Account_Balance (data self)) with
  | None => ret 0
  | Some l =>
      m ← map_read (Some l);
      match m !! coinSymbol with
      | None => ret 0
      | Some v => ret v
      end
  end.

(** [func (self *stateObject) setBalance(coinSymbol, amount)] *)
Definition setBalance (self : stateObject) (coinSymbol : CoinSymbol)
  (amount : Z) : M stateObject :=
  self ← match Data (Account_Balance (data self)) with
          | None => l ← make_map; ret (with_Data self (Some l))
          | Some _ => ret self
          end;
  match Data (Account_Balance (data self)) with
     | Some l => map_assign l coinSymbol amount
     | None => ret tt
     end;;
  fire_onDirty self.

(** [func (self *stateObject) SetBalance(coinSymbol, amount)] *)
Definition SetBalance (self : stateObject) (coinSymbol : CoinSymbol)
  (amount : Z) : M stateObject :=
  emit (EvBalanceChange (address self) coinSymbol amount);;
  setBalance self coinSymbol amount.

(** [func (c *stateObject) AddBalance(coinSymbol, amount)] *)
Definition AddBalance (c : stateObject) (coinSymbol : CoinSymbol)
  (amount : Z) : M stateObject :=
  if big.Sign amount =? 0 then
    if empty c then touch c else ret c
  else
    bal ← stateObject_Balance c coinSymbol;
    SetBalance c coinSymbol (bal + amount).

(** [func (c *stateObject) SubBalance(coinSymbol, amount)] *)
Definition SubBalance (c : stateObject) (coinSymbol : CoinSymbol)
  (amount : Z) : M stateObject :=
  if big.Sign amount =? 0 then ret c
  else
    bal ← stateObject_Balance c coinSymbol;
    SetBalance c coinSymbol (bal - amount).

(** [func (c *stateObject) ReturnGas(gas *big.Int)] *)
Definition ReturnGas (c : stateObject) (gas : Z) : M stateObject := ret c.

(** [func (self *stateObject) deepCopy(db, onDirty) *stateObject]:
    [self.data] is passed by value, which copies the [Account] struct and
    with it the reference [Balance.Data], not the map it refers to. *)
Definition deepCopy (self : stateObject) (onDirty : option callback)
  : M stateObject :=
  stateObject ← newObject (address self) (data self) onDirty;
  let stateObject := with_suicided stateObject (suicided self) in
  let stateObject := with_deleted stateObject (deleted self) in
  ret stateObject.

(** [func (self *stateObject) setNonce(nonce uint64)] *)
Definition setNonce (self : stateObject) (nonce : Z) : M stateObject :=
  fire_onDirty (with_Nonce self nonce).

(** [func (self *stateObject) SetNonce(nonce uint64)] *)
Definition SetNonce (self : stateObject) (nonce : Z) : M stateObject :=
  setNonce self nonce.

Section AccountRLP.

(** [rlp.Encode(w, c.data)] for an [Account]: the encoder is handed the
    nonce, the root and, for the field [Balance], whose type implements
    [rlp.Encoder], the entries that [Balances.EncodeRLP] passes on. *)
Variable rlp_Encode_Account : Z -> list Balance -> Hash -> result (list byte).

(** [func (c *stateObject) EncodeRLP(w io.Writer) error] *)
Definition stateObject_EncodeRLP (c : stateObject) : M (result (list byte)) :=
  balances ← EncodeRLP_balances (Account_Balance (data c));
  ret (rlp_Encode_Account (Account_Nonce (data c)) balances
                          (Account_Root (data c))).

End AccountRLP.

(** [func (self *stateObject) Balances() Balances] *)
Definition stateObject_Balances (self : stateObject) : Balances :=
  Account_Balance (data self).

(** [func (self *stateObject) Nonce() uint64] *)
Definition stateObject_Nonce (self : stateObject) : Z :=
  Account_Nonce (data self).

End state.

(** ** Package [check]: the signed check *)

Module check.
Import types.

(** [var ErrInvalidSig = errors.New("invalid transaction v, r, s values")] *)
Definition ErrInvalidSig : error :=
  errors_New "invalid transaction v, r, s values".

(** [type Check struct]; the [*big.Int] fields may be nil. *)
Record Check : Type := mkCheck {
  Nonce : Z;
  DueBlock : Z;
  Coin : CoinSymbol;
  Value : option Z;
  Lock : option Z;
  V : option Z;
  R : option Z;
  S : option Z
}.

(** The zero value [var check Check]. *)
Definition Check_zero : Check :=
  mkCheck 0 0 (vreplicate _ x00) None None None None None.

(** The elements of the [[]interface{}] that [rlpHash] is applied to. *)
Inductive rlp_item : Type :=
| rlp_uint64 (n : Z)
| rlp_CoinSymbol (c : CoinSymbol)
| rlp_bigInt (x : option Z).

Section Crypto.

(** What [rlp.Encode(hw, x)] writes into the hasher [hw] for a list of
    items; [rlpHash] drops the error [rlp.Encode] returns. *)
Variable rlp_Encode : list rlp_item -> list byte.

(** The check that [rlp.Decode(bytes.NewReader(buf), &check)] leaves in
    [check], starting from the zero value, and the error it returns. *)
Variable rlp_Decode : list byte -> Check * option error.

(** Keccak-256 of a byte string, the digest read as a big-endian number:
    [sha3.NewKeccak256] with [Sum], and [crypto.Keccak256]. *)
Variable Keccak256 : list byte -> Z.

(** [crypto.Ecrecover(hash, sig) ([]byte, error)] *)
Variable Ecrecover : Hash -> list byte -> result (list byte).

(** [crypto.ValidateSignatureValues(v byte, r, s *big.Int) bool] *)
Variable ValidateSignatureValues : Z -> Z -> Z -> bool.

(** [func rlpHash(x interface{}) (h types.Hash)]: the digest is written
    into the 32 bytes of [h]. *)
Definition rlpHash (x : list rlp_item) : Hash :=
  Keccak256 (rlp_Encode x) mod 2 ^ 256.

(** [func (check *Check) Hash() types.Hash] *)
Definition Hash_items (check : Check) : list rlp_item :=
  [ rlp_uint64 (Nonce check);
    rlp_uint64 (DueBlock check);
    rlp_CoinSymbol (Coin check);
    rlp_bigInt (Value check);
    rlp_bigInt (Lock check) ].

Definition Check_Hash (check : Check) : Hash := rlpHash (Hash_items check).

(** The list hashed at the start of [LockPubKey]. *)
Definition LockPubKey_items (check : Check) : list rlp_item :=
  [ rlp_uint64 (Nonce check);
    rlp_uint64 (DueBlock check);
    rlp_CoinSymbol (Coin check);
    rlp_bigInt (Value check) ].

Definition LockPubKey_hash (check : Check) : Hash :=
  rlpHash (LockPubKey_items check).

(** [len(pub) == 0 || pub[0] != 4] *)
Definition invalid_public_key (pub : list byte) : bool :=
  match pub with
  | [] => true
  | b :: _ => negb (byte_to_Z b =? 4)
  end.

(** [func (check *Check) LockPubKey() ([]byte, error)]; [check.Lock.Bytes()]
    dereferences [Lock]. *)
Definition LockPubKey (check : Check) : result (list byte) :=
  let hash := LockPubKey_hash check in
  match Lock check with
  | None => Panic
  | Some lock =>
      match Ecrecover hash (big.Bytes lock) with
      | Err err => Err err
      | Panic => Panic
      | Ok pub =>
          if invalid_public_key pub then Err (errors_New "invalid public key")
          else Ok pub
      end
  end.

(** [copy(dst[from:from+len(src)], src)] for a slice expression that is in
    range. *)
Definition copy_at (from : nat) (src dst : list byte) : list byte :=
  take from dst ++ src ++ drop (from + length src) dst.

(** The signature [recoverPlain] assembles:
    [sig := make([]byte, 65); copy(sig[32-len(r):32], r);
     copy(sig[64-len(s):64], s); sig[64] = V].
    An [s] of more than 32 bytes overwrites the end of the half of [r]. *)
Definition encode_sig (r s : list byte) (V : Z) : list byte :=
  let sig := replicate 65 x00 in
  let sig := copy_at (32 - length r) r sig in
  let sig := copy_at (64 - length s) s sig in
  <[64%nat := byte_of_Z V]> sig.

(** [func recoverPlain(sighash types.Hash, R, S, Vb *big.Int)
    (types.Address, error)].  [Vb.BitLen()] dereferences [Vb]; [R] and [S]
    are dereferenced by the validation; the slice expression
    [sig[32-len(r):32]] panics when [r] is longer than 32 bytes, and
    [sig[64-len(s):64]] when [s] is longer than 64 bytes. *)
Definition recoverPlain (sighash : Hash) (R S Vb : option Z) : result Address :=
  match Vb with
  | None => Panic
  | Some Vb =>
      if big.BitLen Vb >? 8 then Err ErrInvalidSig
      else
        let V := ((big.Uint64 Vb - 27) mod 2 ^ 64) mod 2 ^ 8 in
        match R, S with
        | Some R, Some S =>
            if negb (ValidateSignatureValues V R S) then Err ErrInvalidSig
            else
              let r := big.Bytes R in
              let s := big.Bytes S in
              if (32 <? length r)%nat || (64 <? length s)%nat then Panic
              else
                let sig := encode_sig r s V in
                match Ecrecover sighash sig with
                | Err err => Err err
                | Panic => Panic
                | Ok pub =>
                    if invalid_public_key pub
                    then Err (errors_New "invalid public key")
                    else Ok ((Keccak256 (tail pub) mod 2 ^ 256) mod 2 ^ 160)
                end
        | _, _ => Panic
        end
  end.

(** [func (check *Check) Sender() (types.Address, error)] *)
Definition Sender (check : Check) : result Address :=
  recoverPlain (Check_Hash check) (R check) (S check) (V check).

(** [func DecodeFromBytes(buf []byte) returning ([*Check], error)] *)
Definition DecodeFromBytes (buf : list byte) : result Check :=
  let check := fst (rlp_Decode buf) in
  if bool_decide (S check = None) || bool_decide (R check = None)
     || bool_decide (V check = None)
  then Err (errors_New "incorrect tx signature")
  else Ok check.

End Crypto.

(** *** The decoder of checks

    Modelled from the spec: the function [rlp.Decode] of the repository's
    package [rlp], which is not among the sources, as [DecodeFromBytes]
    calls it: [var check Check; rlp.Decode(bytes.NewReader(buf), &check)].
    The spec names the format "a deterministic, length-prefixed recursive
    encoding": an item is a byte string or a list of items, and each item
    is preceded by its length.  The layout is the one of RLP: a single byte
    below 128 stands for itself; a first byte 128+n (n at most 55) is
    followed by a string of n bytes and 183+k by a length of k bytes and
    the string; 192+n and 247+k introduce a list in the same way.  A check
    is the list of its eight fields in the order of the struct; integers
    are big-endian without leading zero bytes, the coin is a string of ten
    bytes.  The decoder fills the check it is given field by field, so
    that on an error the fields read before it are set and the others are
    as they were, and it returns the error.  Whether bytes that follow the
    value in the reader are an error the spec does not say: [strict]
    decides it. *)

Inductive rlp_value : Type :=
| rlp_string (b : list byte)
| rlp_list (payload : list byte).

Definition rlp_take (n : Z) (input : list byte)
  : option (list byte * list byte) :=
  if n <=? Z.of_nat (length input)
  then Some (take (Z.to_nat n) input, drop (Z.to_nat n) input)
  else None.

(** One item at the head of the input, and the input after it. *)
Definition rlp_read (input : list byte) : option (rlp_value * list byte) :=
  match input with
  | [] => None
  | b :: rest =>
      let n := byte_to_Z b in
      if n <? 128 then Some (rlp_string [b], rest)
      else if n <? 184 then
        '(str, rest) ← rlp_take (n - 128) rest;
        Some (rlp_string str, rest)
      else if n <? 192 then
        '(len, rest) ← rlp_take (n - 183) rest;
        '(str, rest) ← rlp_take (big.SetBytes len) rest;
        Some (rlp_string str, rest)
      else if n <? 248 then
        '(payload, rest) ← rlp_take (n - 192) rest;
        Some (rlp_list payload, rest)
      else
        '(len, rest) ← rlp_take (n - 247) rest;
        '(payload, rest) ← rlp_take (big.SetBytes len) rest;
        Some (rlp_list payload, rest)
  end.

(** An integer: a string without a leading zero byte. *)
Definition rlp_integer (str : list byte) : option Z :=
  match str with
  | x00 :: _ => None
  | _ => Some (big.SetBytes str)
  end.

Definition rlp_uint (str : list byte) : option Z :=
  if (length str <=? 8)%nat then rlp_integer str else None.

Inductive Check_field : Type :=
| field_Nonce | field_DueBlock | field_Coin | field_Value | field_Lock
| field_V | field_R | field_S.

Definition Check_fields : list Check_field :=
  [field_Nonce; field_DueBlock; field_Coin; field_Value; field_Lock;
   field_V; field_R; field_S].

(** The check with one field set from a decoded string. *)
Definition Check_set (f : Check_field) (str : list byte) (c : Check)
  : option Check :=
  match f with
  | field_Nonce =>
      n ← rlp_uint str;
      Some (mkCheck n (DueBlock c) (Coin c) (Value c) (Lock c)
                    (V c) (R c) (S c))
  | field_DueBlock =>
      n ← rlp_uint str;
      Some (mkCheck (Nonce c) n (Coin c) (Value c) (Lock c)
                    (V c) (R c) (S c))
  | field_Coin =>
      if (length str =? CoinSymbolLength)%nat
      then Some (mkCheck (Nonce c) (DueBlock c) (coin_of_bytes str) (Value c)
                         (Lock c) (V c) (R c) (S c))
      else None
  | field_Value =>
      n ← rlp_integer str;
      Some (mkCheck (Nonce c) (DueBlock c) (Coin c) (Some n) (Lock c)
                    (V c) (R c) (S c))
  | field_Lock =>
      n ← rlp_integer str;
      Some (mkCheck (Nonce c) (DueBlock c) (Coin c) (Value c) (Some n)
                    (V c) (R c) (S c))
  | field_V =>
      n ← rlp_integer str;
      Some (mkCheck (Nonce c) (DueBlock c) (Coin c) (Value c) (Lock c)
                    (Some n) (R c) (S c))
  | field_R =>
      n ← rlp_integer str;
      Some (mkCheck (Nonce c) (DueBlock c) (Coin c) (Value c) (Lock c)
                    (V c) (Some n) (S c))
  | field_S =>
      n ← rlp_integer str;
      Some (mkCheck (Nonce c) (DueBlock c) (Coin c) (Value c) (Lock c)
                    (V c) (R c) (Some n))
  end.

(** The fields, one after the other, from the payload of the list. *)
Fixpoint Check_decode_fields (fields : list Check_field)
  (payload : list byte) (c : Check) : Check * option error :=
  match fields with
  | [] =>
      match payload with
      | [] => (c, None)
      | _ => (c, Some (errors_New "rlp: input list has too many elements"))
      end
  | f :: fields' =>
      match payload with
      | [] => (c, Some (errors_New "rlp: too few elements"))
      | _ =>
          match rlp_read payload with
          | None => (c, Some (errors_New "rlp: value size exceeds available input"))
          | Some (rlp_list _, _) =>
              (c, Some (errors_New "rlp: expected input string or byte"))
          | Some (rlp_string str, rest) =>
              match Check_set f str c with
              | None => (c, Some (errors_New "rlp: invalid field"))
              | Some c' => Check_decode_fields fields' rest c'
              end
          end
      end
  end.

Definition rlp_Decode_Check (strict : bool) (buf : list byte)
  : Check * option error :=
  match rlp_read buf with
  | None => (Check_zero, Some (errors_New "rlp: unexpected end of input"))
  | Some (rlp_string _, _) =>
      (Check_zero, Some (errors_New "rlp: expected input list"))
  | Some (rlp_list payload, rest) =>
      let '(c, err) := Check_decode_fields Check_fields payload Check_zero in
      match err, rest with
      | None, _ :: _ =>
          (c, if strict
              then Some (errors_New "rlp: input contains more than one value")
              else None)
      | _, _ => (c, err)
      end
  end.

(** The encoding of a list whose payload has at most 55 bytes. *)
Definition rlp_short_list (payload : list byte) : list byte :=
  byte_of_Z (192 + Z.of_nat (length payload)) :: payload.

End check.

(** ** Package [transaction]: the delegation transaction *)

Module transaction.
Import types.

(** The result codes of package [code] that [Run] returns. *)
Inductive code : Type :=
| OK
| CoinNotExists
| StakeShouldBePositive
| CoinReserveNotSufficient
| InsufficientFunds
| CandidateNotFound.

Global Instance code_eq_dec : EqDecision code.
Proof. solve_decision. Defined.

(** The [Log] strings of [Run]: the format used and its arguments.
      - [Log_CoinNotExists c]: "Coin %s not exists"
      - [Log_StakeShouldBePositive]: "Stake should be positive"
      - [Log_CoinReserve has required]: "Coin reserve balance is not
        sufficient for transaction. Has: %s, required %s"
      - [Log_InsufficientFunds sender wanted coin]: "Insufficient funds for
        sender account: %s. Wanted %s %s"
      - [Log_CandidateNotFound]: "Candidate with such public key not found"
      - [Log_empty]: the empty string. *)
Inductive log : Type :=
| Log_empty
| Log_CoinNotExists (coin : CoinSymbol)
| Log_StakeShouldBePositive
| Log_CoinReserve (has required : Z)
| Log_InsufficientFunds (sender : Address) (wanted : Z) (coin : CoinSymbol)
| Log_CandidateNotFound.

(** [type Response struct], the fields [Run] sets; the others keep their
    zero value. *)
Record Response : Type := mkResponse {
  Code : code;
  GasUsed : Z;
  GasWanted : Z;
  Log : log
}.

(** [type DelegateData struct] *)
Record DelegateData : Type := mkDelegateData {
  PubKey : list byte;
  Coin : CoinSymbol;
  Stake : Z
}.

(** Modelled from the spec: the transaction envelope [Transaction], whose
    declaration is not among the sources: "generic envelope
    { Nonce, GasPrice, GasCoin, Gas, Payload }".  [Gas] is the value of
    [tx.Gas()]; the payload is the [data] that [Run] receives. *)
Record Transaction : Type := mkTransaction {
  Nonce : Z;
  GasPrice : Z;
  GasCoin : CoinSymbol;
  Gas : Z
}.

(** Modelled from the spec: the coin record returned by [GetStateCoin],
    "{Volume, ReserveBalance, Crr}". *)
Record stateCoin : Type := mkStateCoin {
  Volume : Z;
  ReserveBalance : Z;
  Crr : Z
}.

(** Modelled from the spec: one recorded delegation,
    "Delegate(addr, pubkey, coin, amount)". *)
Record delegation : Type := mkDelegation {
  delegation_Owner : Address;
  delegation_PubKey : list byte;
  delegation_Coin : CoinSymbol;
  delegation_Value : Z
}.

(** Modelled from the spec: the state manager [state.StateDB], whose source
    is not among the sources, as far as [Run] consumes it (the state manager
    interface of the spec): the balances and nonces of the accounts, the
    registered coins, the registered candidates and the recorded
    delegations. *)
Record StateDB : Type := mkStateDB {
  balances : gmap (Address * CoinSymbol) Z;
  nonces : gmap Address Z;
  coins : gmap CoinSymbol stateCoin;
  candidates : list (list byte);
  delegations : list delegation
}.

(** Modelled from the spec: "CoinExists(symbol) -> bool". *)
Definition CoinExists (s : StateDB) (symbol : CoinSymbol) : bool :=
  bool_decide (is_Some (coins s !! symbol)).

(** Modelled from the spec: "GetStateCoin(symbol) -> {Volume,
    ReserveBalance, Crr}"; nil for a coin that does not exist. *)
Definition GetStateCoin (s : StateDB) (symbol : CoinSymbol) : option stateCoin :=
  coins s !! symbol.

(** Modelled from the spec: "GetBalance(addr, symbol) -> amount", zero for
    an absent entry. *)
Definition GetBalance (s : StateDB) (addr : Address) (symbol : CoinSymbol) : Z :=
  default 0 (balances s !! (addr, symbol)).

(** Modelled from the spec: "CandidateExists(pubkey) -> bool". *)
Definition CandidateExists (s : StateDB) (pubkey : list byte) : bool :=
  bool_decide (pubkey ∈ candidates s).

(** The nonce of an account, zero for an absent one. *)
Definition GetNonce (s : StateDB) (addr : Address) : Z :=
  default 0 (nonces s !! addr).

Definition with_balance (s : StateDB) (addr : Address) (symbol : CoinSymbol)
  (amount : Z) : StateDB :=
  mkStateDB (<[(addr, symbol) := amount]> (balances s)) (nonces s) (coins s)
            (candidates s) (delegations s).

(** Modelled from the spec: "SubBalance(coin, amount): no-op when
    amount == 0; otherwise subtracts", without a sufficiency check. *)
Definition SubBalance (s : StateDB) (addr : Address) (symbol : CoinSymbol)
  (amount : Z) : StateDB :=
  if big.Sign amount =? 0 then s
  else with_balance s addr symbol (GetBalance s addr symbol - amount).

(** Modelled from the spec: "AddBalance(coin, amount)": nothing for a zero
    amount, "otherwise adds to the existing balance". *)
Definition AddBalance (s : StateDB) (addr : Address) (symbol : CoinSymbol)
  (amount : Z) : StateDB :=
  if big.Sign amount =? 0 then s
  else with_balance s addr symbol (GetBalance s addr symbol + amount).

(** Modelled from the spec: "SetNonce(addr, nonce)": "overwrites nonce". *)
Definition SetNonce (s : StateDB) (addr : Address) (nonce : Z) : StateDB :=
  mkStateDB (balances s) (<[addr := nonce]> (nonces s)) (coins s)
            (candidates s) (delegations s).

(** Modelled from the spec: "Delegate(addr, pubkey, coin, amount)":
    "record a delegation". *)
Definition Delegate (s : StateDB) (addr : Address) (pubkey : list byte)
  (coin : CoinSymbol) (amount : Z) : StateDB :=
  mkStateDB (balances s) (nonces s) (coins s) (candidates s)
            (delegations s ++ [mkDelegation addr pubkey coin amount]).

(** [fmt.Sprintf("%x", b)] for a byte slice: two lowercase hexadecimal
    digits per byte. *)
Definition hex_digit (n : Z) : ascii :=
  default "0"%char
          (list_ascii_of_string "0123456789abcdef" !! Z.to_nat n).

Fixpoint Sprintf_x (b : list byte) : string :=
  match b with
  | [] => EmptyString
  | x :: b' =>
      String.String (hex_digit (byte_to_Z x / 16))
        (String.String (hex_digit (byte_to_Z x mod 16)) (Sprintf_x b'))
  end.

(** The anonymous struct that [MarshalJSON] hands to [json.Marshal], with
    the fields "pub_key", "coin" and "stake". *)
Record DelegateData_json : Type := mkDelegateData_json {
  json_pub_key : string;
  json_coin : CoinSymbol;
  json_stake : string
}.

Definition MarshalJSON_struct (data : DelegateData) : DelegateData_json :=
  mkDelegateData_json ("Mp" +:+ Sprintf_x (PubKey data))
                      (Coin data)
                      (big.String (Stake data)).

Section JSON.

(** [json.Marshal] of that struct. *)
Variable json_Marshal : DelegateData_json -> result (list byte).

(** [func (data DelegateData) MarshalJSON() ([]byte, error)] *)
Definition MarshalJSON (data : DelegateData) : result (list byte) :=
  json_Marshal (MarshalJSON_struct data).

End JSON.

Section Run.

(** [commissions.DelegateTx] *)
Variable DelegateTx : Z.
(** [CommissionMultiplier] *)
Variable CommissionMultiplier : Z.
(** [types.GetBaseCoin()] *)
Variable BaseCoin : CoinSymbol.
(** [formula.CalculateSaleAmount(volume, reserve, crr, amountToGet)] *)
Variable CalculateSaleAmount : Z -> Z -> Z -> Z -> Z.

(** [func (data DelegateData) Gas() int64] *)
Definition DelegateData_Gas (data : DelegateData) : Z := DelegateTx.

(** What [Run] returns and leaves behind: the response, the state behind
    [context] and the value behind [rewardPool]. *)
Record outcome : Type := mkOutcome {
  response : Response;
  state_after : StateDB;
  rewardPool_after : Z
}.

(** [commissionInBaseCoin], lines 56-57 of [Run]. *)
Definition commissionInBaseCoin (tx : Transaction) : Z :=
  let commissionInBaseCoin := GasPrice tx * Gas tx in
  commissionInBaseCoin * CommissionMultiplier.

(** Lines 72-115 of [Run]: from the balance checks on, with the values of
    [commissionInBaseCoin] and [commission] computed before. *)
Definition Run_checked (data : DelegateData) (sender : Address)
  (tx : Transaction) (context : StateDB) (isCheck : bool) (rewardPool : Z)
  (commissionInBaseCoin commission : Z) : outcome :=
  if big.Cmp (GetBalance context sender (GasCoin tx)) commission <? 0 then
    mkOutcome
      (mkResponse InsufficientFunds 0 0
         (Log_InsufficientFunds sender commission (GasCoin tx)))
      context rewardPool
  else if big.Cmp (GetBalance context sender (Coin data)) (Stake data) <? 0 then
    mkOutcome
      (mkResponse InsufficientFunds 0 0
         (Log_InsufficientFunds sender (Stake data) (Coin data)))
      context rewardPool
  else
    let totalTxCost := 0 + Stake data + commission in
    if bool_decide (Coin data = GasCoin tx)
       && (big.Cmp (GetBalance context sender (GasCoin tx)) totalTxCost <? 0)
    then
      mkOutcome
        (mkResponse InsufficientFunds 0 0
           (Log_InsufficientFunds sender totalTxCost (GasCoin tx)))
        context rewardPool
    else if negb (CandidateExists context (PubKey data)) then
      mkOutcome (mkResponse CandidateNotFound 0 0 Log_CandidateNotFound)
                context rewardPool
    else if negb isCheck then
      let rewardPool := rewardPool + commissionInBaseCoin in
      let context := SubBalance context sender (GasCoin tx) commission in
      let context := SubBalance context sender (Coin data) (Stake data) in
      let context :=
        Delegate context sender (PubKey data) (Coin data) (Stake data) in
      let context := SetNonce context sender (Nonce tx) in
      mkOutcome (mkResponse OK (Gas tx) (Gas tx) Log_empty) context rewardPool
    else
      mkOutcome (mkResponse OK (Gas tx) (Gas tx) Log_empty) context rewardPool.

(** [func (data DelegateData) Run(sender, tx, context, isCheck, rewardPool,
    currentBlock) Response].  [None] is the nil dereference of
    [coin.ReserveBalance()] when [GetStateCoin] returns nil. *)
Definition Run (data : DelegateData) (sender : Address) (tx : Transaction)
  (context : StateDB) (isCheck : bool) (rewardPool : Z) (currentBlock : Z)
  : option outcome :=
  if negb (CoinExists context (GasCoin tx)) then
    Some (mkOutcome
            (mkResponse CoinNotExists 0 0 (Log_CoinNotExists (GasCoin tx)))
            context rewardPool)
  else if big.Cmp (Stake data) Big0 <? 1 then
    Some (mkOutcome
            (mkResponse StakeShouldBePositive 0 0 Log_StakeShouldBePositive)
            context rewardPool)
  else
    let commissionInBaseCoin := commissionInBaseCoin tx in
    let commission := commissionInBaseCoin in
    if bool_decide (GasCoin tx <> BaseCoin) then
      match GetStateCoin context (GasCoin tx) with
      | None => None
      | Some coin =>
          if big.Cmp (ReserveBalance coin) commissionInBaseCoin <? 0 then
            Some (mkOutcome
                    (mkResponse CoinReserveNotSufficient 0 0
                       (Log_CoinReserve (ReserveBalance coin)
                                        commissionInBaseCoin))
                    context rewardPool)
          else
            let commission :=
              CalculateSaleAmount (Volume coin) (ReserveBalance coin)
                                  (Crr coin) commissionInBaseCoin in
            Some (Run_checked data sender tx context isCheck rewardPool
                              commissionInBaseCoin commission)
      end
    else
      Some (Run_checked data sender tx context isCheck rewardPool
                        commissionInBaseCoin commission).

(** The value of [commission] when [Run] reaches the balance checks:
    [None] when it returns (or panics) before. *)
Definition commission (tx : Transaction) (context : StateDB) : option Z :=
  if bool_decide (GasCoin tx <> BaseCoin) then
    match GetStateCoin context (GasCoin tx) with
    | None => None
    | Some coin =>
        if big.Cmp (ReserveBalance coin) (commissionInBaseCoin tx) <? 0
        then None
        else Some (CalculateSaleAmount (Volume coin) (ReserveBalance coin)
                                       (Crr coin) (commissionInBaseCoin tx))
    end
  else Some (commissionInBaseCoin tx).

End Run.

End transaction.

(** ** Package [version] *)

Module version.

(** The version components. *)
Definition Maj : string := "0".
Definition Min : string := "4".
Definition Fix : string := "2".

(** The initial value of the variable [Version]. *)
Definition Version : string := "0.4.2".

(** [func init()]: the value of [Version] once the package is initialized,
    for the [GitCommit] that the linker has set. *)
Definition init (GitCommit : string) : string :=
  if bool_decide (GitCommit <> EmptyString)
  then Version +:+ "-" +:+ GitCommit
  else Version.

End version.

(** * Properties *)

(** ** Facts about bytes *)

Lemma byte_to_Z_range b : 0 <= byte_to_Z b < 256.
Proof.
  unfold byte_to_Z. pose proof (Byte.to_N_bounded b) as H. lia.
Qed.

Lemma byte_of_to_Z b : byte_of_Z (byte_to_Z b) = b.
Proof.
  unfold byte_of_Z. rewrite Z.mod_small by apply byte_to_Z_range.
  unfold byte_to_Z. rewrite N2Z.id, Byte.of_to_N. reflexivity.
Qed.

Lemma byte_to_of_Z z : byte_to_Z (byte_of_Z z) = z mod 256.
Proof.
  unfold byte_of_Z, byte_to_Z.
  assert (Hr : 0 <= z mod 256 < 256) by (apply Z.mod_pos_bound; lia).
  destruct (Byte.of_N (Z.to_N (z mod 256))) as [b|] eqn:E.
  - apply Byte.to_of_N in E. simpl. rewrite E. lia.
  - apply Byte.of_N_None_iff in E. lia.
Qed.

(** ** Facts about the [math/big] operations *)

Module big_facts.
Import big.

Lemma Cmp_lt x y : Cmp x y < 0 <-> x < y.
Proof. unfold Cmp. destruct (Z.compare_spec x y); lia. Qed.

Lemma Cmp_gt x y : Cmp x y > 0 <-> x > y.
Proof. unfold Cmp. destruct (Z.compare_spec x y); lia. Qed.

Lemma Cmp_eq1 x y : Cmp x y = 1 <-> x > y.
Proof. unfold Cmp. destruct (Z.compare_spec x y); lia. Qed.

Lemma Cmp_lt1 x y : Cmp x y < 1 <-> x <= y.
Proof. unfold Cmp. destruct (Z.compare_spec x y); lia. Qed.

Lemma Sign_0 x : Sign x = 0 <-> x = 0.
Proof. unfold Sign. lia. Qed.

Lemma BitLen_gt_8 x : BitLen x > 8 <-> 256 <= Z.abs x.
Proof.
unfold BitLen. destruct (Z.eqb_spec (Z.abs x) 0) as [E|E]; [lia|].
assert (0 < Z.abs x) by lia.
split; intros H1.
- assert (8 <= Z.log2 (Z.abs x)) as H2 by lia.
  apply Z.log2_le_pow2 in H2; lia.
- assert (2 ^ 8 <= Z.abs x) as H2 by lia.
  apply Z.log2_le_pow2 in H2; lia.
Qed.

Lemma SetBytes_app l1 l2 :
SetBytes (l1 ++ l2) = SetBytes l1 * 256 ^ Z.of_nat (length l2) + SetBytes l2.
Proof.
unfold SetBytes.
assert (G : forall l a,
  fold_left (fun acc b => acc * 256 + byte_to_Z b) l a
  = a * 256 ^ Z.of_nat (length l)
    + fold_left (fun acc b => acc * 256 + byte_to_Z b) l 0).
{ induction l as [|b l IH]; intros a; simpl fold_left.
  - simpl. lia.
  - rewrite IH. rewrite (IH (0 * 256 + byte_to_Z b)).
    rewrite length_cons, Nat2Z.inj_succ, Z.pow_succ_r by lia. ring. }
rewrite fold_left_app, G. reflexivity.
Qed.

Lemma SetBytes_snoc l b : SetBytes (l ++ [b]) = SetBytes l * 256 + byte_to_Z b.
Proof. unfold SetBytes. rewrite fold_left_app. reflexivity. Qed.

Lemma SetBytes_range l : 0 <= SetBytes l < 256 ^ Z.of_nat (length l).
Proof.
induction l as [|b l IH] using rev_ind.
- unfold SetBytes. simpl. lia.
- rewrite SetBytes_snoc, length_app. simpl length.
  replace (Z.of_nat (length l + 1)) with (Z.succ (Z.of_nat (length l))) by lia.
  rewrite Z.pow_succ_r by lia.
  pose proof (byte_to_Z_range b). nia.
Qed.

(** Two byte strings of one length that spell the same number are equal. *)
Lemma SetBytes_inj l1 l2 :
length l1 = length l2 -> SetBytes l1 = SetBytes l2 -> l1 = l2.
Proof.
revert l2. induction l1 as [|b1 l1 IH] using rev_ind; intros l2 Hlen Heq.
- destruct l2; [reflexivity | discriminate].
- destruct l2 as [|b2 l2 _] using rev_ind.
  { rewrite length_app in Hlen. simpl in Hlen. lia. }
  rewrite !length_app in Hlen. simpl in Hlen.
  rewrite !SetBytes_snoc in Heq.
  pose proof (byte_to_Z_range b1). pose proof (byte_to_Z_range b2).
  assert (SetBytes l1 = SetBytes l2 /\ byte_to_Z b1 = byte_to_Z b2) as [E1 E2] by lia.
  rewrite (IH l2) by (lia || assumption).
  rewrite <- (byte_of_to_Z b1), <- (byte_of_to_Z b2), E2. reflexivity.
Qed.

Lemma SetBytes_cons b l :
  SetBytes (b :: l) = byte_to_Z b * 256 ^ Z.of_nat (length l) + SetBytes l.
Proof.
  change (b :: l) with ([b] ++ l). rewrite SetBytes_app.
  unfold SetBytes at 1. simpl. lia.
Qed.

(** [Bytes_go] prepends the base-256 digits of [n], most significant first,
    when the fuel covers them. *)
Lemma SetBytes_Bytes_go fuel n acc :
  0 <= n < 256 ^ Z.of_nat fuel ->
  SetBytes (Bytes_go fuel n acc)
  = n * 256 ^ Z.of_nat (length acc) + SetBytes acc.
Proof.
  revert n acc. induction fuel as [|fuel IH]; intros n acc Hn.
  - simpl in *. assert (n = 0) as -> by lia. lia.
  - cbn [Bytes_go]. destruct (Z.eqb_spec n 0) as [->|Hne]; [lia|].
    rewrite Nat2Z.inj_succ, Z.pow_succ_r in Hn by lia.
    rewrite IH.
    2: { split; [apply Z.div_pos; lia|]. apply Z.div_lt_upper_bound; lia. }
    rewrite SetBytes_cons, byte_to_of_Z, length_cons, Nat2Z.inj_succ,
      Z.pow_succ_r by lia.
    pose proof (Z.div_mod n 256 ltac:(lia)). nia.
Qed.

Lemma Bytes_go_length fuel n acc k :
  0 <= n < 256 ^ Z.of_nat k ->
  (length (Bytes_go fuel n acc) <= k + length acc)%nat.
Proof.
  revert n acc k. induction fuel as [|fuel IH]; intros n acc k Hn.
  - simpl. lia.
  - cbn [Bytes_go]. destruct (Z.eqb_spec n 0) as [->|Hne]; [lia|].
    destruct k as [|k]; [simpl in Hn; lia|].
    rewrite Nat2Z.inj_succ, Z.pow_succ_r in Hn by lia.
    specialize (IH (n / 256) (byte_of_Z n :: acc) k).
    rewrite length_cons in IH.
    assert (0 <= n / 256 < 256 ^ Z.of_nat k) as Hd.
    { split; [apply Z.div_pos; lia|]. apply Z.div_lt_upper_bound; lia. }
    specialize (IH Hd). lia.
Qed.

Lemma BitLen_bound x : 0 <= Z.abs x < 256 ^ Z.of_nat (Z.to_nat (BitLen x)).
Proof.
  split; [lia|]. unfold BitLen.
  destruct (Z.eqb_spec (Z.abs x) 0) as [E|E].
  - rewrite E. simpl. lia.
  - assert (0 < Z.abs x) as Hp by lia.
    pose proof (Z.log2_nonneg (Z.abs x)).
    rewrite Z2Nat.id by lia.
    destruct (Z.log2_spec (Z.abs x) Hp) as [_ Hlt].
    replace (Z.succ (Z.log2 (Z.abs x))) with (Z.log2 (Z.abs x) + 1) in Hlt by lia.
    eapply Z.lt_le_trans; [exact Hlt|].
    apply Z.pow_le_mono_l. lia.
Qed.

(** [SetBytes] undoes [Bytes] on the absolute value. *)
Lemma SetBytes_Bytes x : SetBytes (Bytes x) = Z.abs x.
Proof.
  unfold Bytes. rewrite SetBytes_Bytes_go by apply BitLen_bound.
  unfold SetBytes. simpl. lia.
Qed.

(** [Bytes] has no leading zero bytes: it is as short as the number
    allows. *)
Lemma Bytes_length_le x k :
  (length (Bytes x) <= k)%nat <-> Z.abs x < 256 ^ Z.of_nat k.
Proof.
  split.
  - intros Hl. rewrite <- SetBytes_Bytes.
    eapply Z.lt_le_trans; [apply SetBytes_range|].
    apply Z.pow_le_mono_r; lia.
  - intros Hx. unfold Bytes.
    pose proof (Bytes_go_length (Z.to_nat (BitLen x)) (Z.abs x) [] k) as H.
    simpl in H. rewrite Nat.add_0_r in H. apply H. lia.
Qed.


End big_facts.

(** ** Facts about [sort.Slice] *)

Section SortSliceFacts.
Context {A : Type} (less : A -> A -> bool).

Lemma sort_insert_Permutation x l : sort_insert less x l ≡ₚ x :: l.
Proof.
  induction l as [|y l IH]; simpl; [done|].
  destruct (less y x); [|done].
  rewrite IH. apply Permutation_swap.
Qed.

Lemma sort_Slice_Permutation l : sort_Slice less l ≡ₚ l.
Proof.
  induction l as [|x l IH]; simpl; [done|].
  by rewrite sort_insert_Permutation, IH.
Qed.

Hypothesis less_asym : forall a b, less a b = true -> less b a = false.
Hypothesis less_negtrans :
  forall a b c, less b a = false -> less c b = false -> less c a = false.

Lemma sort_insert_sorted x l : sorted_by less l -> sorted_by less (sort_insert less x l).
Proof.
  unfold sorted_by. induction 1 as [|y l Hs IH Hall]; simpl.
  - repeat constructor.
  - destruct (less y x) eqn:E.
    + constructor; [assumption|].
      rewrite sort_insert_Permutation. constructor; [|assumption].
      by apply less_asym.
    + constructor; [by constructor|].
      constructor; [assumption|].
      eapply Forall_impl; [exact Hall|]. intros z Hz. simpl in Hz.
      by apply (less_negtrans x y z).
Qed.

Lemma sort_Slice_sorted l : sorted_by less (sort_Slice less l).
Proof.
  induction l as [|x l IH]; simpl; [constructor|].
  by apply sort_insert_sorted.
Qed.

End SortSliceFacts.

(** ** Package [state]: the balance ledger *)

Module state_facts.
Import types state.

(** The contents of the map a [Balances] value refers to. *)
Definition contents (mem : memory) (b : Balances) : CoinMap :=
  eval (map_read (Data b)) mem.

Lemma getCoins_less_spec a b :
  getCoins_less a b = true <-> coin_value a > coin_value b.
Proof.
  unfold getCoins_less. rewrite Z.eqb_eq. apply big_facts.Cmp_eq1.
Qed.

Lemma getCoins_less_false a b :
  getCoins_less a b = false <-> coin_value a <= coin_value b.
Proof.
  rewrite <- not_true_iff_false, getCoins_less_spec. lia.
Qed.

Lemma getCoins_less_asym a b :
  getCoins_less a b = true -> getCoins_less b a = false.
Proof. rewrite getCoins_less_spec, getCoins_less_false. lia. Qed.

Lemma getCoins_less_negtrans a b c :
  getCoins_less b a = false -> getCoins_less c b = false ->
  getCoins_less c a = false.
Proof. rewrite !getCoins_less_false. lia. Qed.

(** Coin symbols are arrays of one length, so their numbers identify them. *)
Lemma coin_value_inj a b : coin_value a = coin_value b -> a = b.
Proof.
  unfold coin_value, CoinSymbol_Bytes. intros H.
  apply vec_to_list_inj2, big_facts.SetBytes_inj; [|exact H].
  by rewrite !length_vec_to_list.
Qed.

(** The loop of [getCoins] keeps the keys with a positive amount, in the
    order of the visit. *)
Definition positive_keys (visit : list (CoinSymbol * Z)) : list CoinSymbol :=
  (filter (fun kv => 0 < snd kv) visit).*1.

Lemma getCoins_loop visit keys :
  fold_left (fun keys kv =>
               if big.Cmp (snd kv) Big0 >? 0 then keys ++ [fst kv] else keys)
            visit keys
  = keys ++ positive_keys visit.
Proof.
  unfold positive_keys. revert keys.
  induction visit as [|[k v] visit IH]; intros keys; simpl.
  - by rewrite app_nil_r.
  - rewrite IH, filter_cons. simpl.
    destruct (big.Cmp v Big0 >? 0) eqn:E.
    + apply Z.gtb_lt in E.
      assert (big.Cmp v Big0 > 0) as E' by lia.
      apply -> big_facts.Cmp_gt in E'. unfold Big0 in E'.
      rewrite decide_True by lia. simpl. by rewrite <- app_assoc.
    + assert (~ big.Cmp v Big0 > 0) as E'.
      { intros G. apply Z.gt_lt, Z.gtb_lt in G. congruence. }
      rewrite big_facts.Cmp_gt in E'. unfold Big0 in E'.
      by rewrite decide_False by lia.
Qed.

Lemma getCoins_range_eq visit :
  getCoins_range visit = sort_Slice getCoins_less (positive_keys visit).
Proof. unfold getCoins_range. by rewrite getCoins_loop. Qed.

Lemma getCoins_range_Permutation visit :
  getCoins_range visit ≡ₚ positive_keys visit.
Proof. rewrite getCoins_range_eq. apply sort_Slice_Permutation. Qed.

Lemma getCoins_range_sorted visit :
  sorted_by getCoins_less (getCoins_range visit).
Proof.
  rewrite getCoins_range_eq. apply sort_Slice_sorted.
  - apply getCoins_less_asym.
  - apply getCoins_less_negtrans.
Qed.

Lemma elem_of_positive_keys (m : CoinMap) k :
  k ∈ positive_keys (map_to_list m) <-> exists v, m !! k = Some v /\ 0 < v.
Proof.
  unfold positive_keys. rewrite list_elem_of_fmap. split.
  - intros [[k' v] [-> Hin]]. apply list_elem_of_filter in Hin as [Hpos Hin].
    apply elem_of_map_to_list in Hin. eauto.
  - intros (v & Hv & Hpos). exists (k, v). split; [done|].
    apply list_elem_of_filter. split; [done|]. by apply elem_of_map_to_list.
Qed.

Lemma NoDup_positive_keys (m : CoinMap) :
  NoDup (positive_keys (map_to_list m)).
Proof.
  unfold positive_keys.
  eapply sublist_NoDup; [apply (NoDup_fst_map_to_list m)|].
  apply fmap_sublist, sublist_filter.
Qed.

Lemma elem_of_getCoins_range (m : CoinMap) k :
  k ∈ getCoins_range (map_to_list m) <-> exists v, m !! k = Some v /\ 0 < v.
Proof. by rewrite getCoins_range_Permutation, elem_of_positive_keys. Qed.

Lemma NoDup_getCoins_range (m : CoinMap) :
  NoDup (getCoins_range (map_to_list m)).
Proof. rewrite getCoins_range_Permutation. apply NoDup_positive_keys. Qed.

(** Go does not fix the order in which [range] visits a map; the result of
    [getCoins] does not depend on it. *)
Lemma getCoins_range_deterministic (m : CoinMap) visit :
  visit ≡ₚ map_to_list m ->
  getCoins_range visit = getCoins_range (map_to_list m).
Proof.
  intros Hp.
  assert (TR : Transitive (fun a b => getCoins_less b a = false)).
  { intros a b c H1 H2. by apply (getCoins_less_negtrans a b c). }
  assert (AS : AntiSymm (=) (fun a b => getCoins_less b a = false)).
  { intros a b H1 H2. apply getCoins_less_false in H1, H2.
    apply coin_value_inj. lia. }
  apply (StronglySorted_unique (fun a b => getCoins_less b a = false)).
  - apply getCoins_range_sorted.
  - apply getCoins_range_sorted.
  - rewrite !getCoins_range_Permutation. unfold positive_keys. by rewrite Hp.
Qed.

(** Unfolding the memory monad. *)
Ltac run_M :=
  unfold eval, exec, mbind, M_bind, bind, mret, M_ret, ret,
    map_read, map_assign, make_map, emit in *;
  simpl in *.

Lemma EncodeRLP_loop (m : CoinMap) coins acc :
  fold_left (fun balances k => balances ++ [mkBalance k (map_index m k)])
            coins acc
  = acc ++ map (fun k => mkBalance k (map_index m k)) coins.
Proof.
  revert acc. induction coins as [|k coins IH]; intros acc; simpl.
  - by rewrite app_nil_r.
  - by rewrite IH, <- app_assoc.
Qed.

(** [EncodeRLP] reads the map and leaves the memory as it is: the entries
    it hands to [rlp.Encode] are those of [getCoins], in that order. *)
Lemma EncodeRLP_balances_run mem b :
  EncodeRLP_balances b mem
  = (map (fun k => mkBalance k (map_index (contents mem b) k))
         (getCoins_range (map_to_list (contents mem b))), mem).
Proof.
  unfold EncodeRLP_balances, getCoins, contents. run_M.
  by rewrite EncodeRLP_loop.
Qed.

Lemma StronglySorted_lookup_lt {A} (R : relation A) l i j x y :
  StronglySorted R l -> l !! i = Some x -> l !! j = Some y -> (i < j)%nat ->
  R x y.
Proof.
  intros Hs. revert i j x y.
  induction Hs as [|z l Hs IH Hall]; intros i j x y Hi Hj Hlt.
  - by rewrite lookup_nil in Hi.
  - destruct j as [|j]; [lia|]. simpl in Hj. destruct i as [|i]; simpl in Hi.
    + injection Hi as <-. rewrite Forall_forall in Hall.
      apply Hall. eapply list_elem_of_lookup_2, Hj.
    + apply (IH i j); [done|done|lia].
Qed.

(** Entries of the encoding and entries of the map. *)
Lemma elem_of_EncodeRLP_balances mem b k v :
  mkBalance k v ∈ eval (EncodeRLP_balances b) mem
  <-> contents mem b !! k = Some v /\ 0 < v.
Proof.
  unfold eval. rewrite EncodeRLP_balances_run. simpl.
  rewrite list_elem_of_fmap. split.
  - intros (k' & E & Hin). injection E as <- ->.
    apply elem_of_getCoins_range in Hin as (v & Hv & Hpos).
    unfold map_index. rewrite Hv. done.
  - intros [Hv Hpos]. exists k. split.
    + unfold map_index. by rewrite Hv.
    + apply elem_of_getCoins_range. eauto.
Qed.

Lemma EncodeRLP_balances_coins mem b :
  Coin <$> eval (EncodeRLP_balances b) mem
  = getCoins_range (map_to_list (contents mem b)).
Proof.
  unfold eval. rewrite EncodeRLP_balances_run. simpl.
  rewrite <- list_fmap_compose. simpl. apply list_fmap_id.
Qed.

(** A ledger for the examples: the coins [AAA] and [BBB]. *)
Definition coin_A : CoinSymbol := coin_of_bytes [x41; x41; x41].
Definition coin_B : CoinSymbol := coin_of_bytes [x42; x42; x42].
Definition coin_Z : CoinSymbol := coin_of_bytes [x5a].

Definition ledger_mem : memory :=
  mkMemory [ <[coin_A := 5]> (<[coin_B := 7]> (<[coin_Z := 0]> ∅)) ] [].
Definition ledger : Balances := mkBalances (Some 0%nat).

Example ledger_encoding :
  eval (EncodeRLP_balances ledger) ledger_mem
  = [mkBalance coin_B 7; mkBalance coin_A 5].
Proof. vm_compute. reflexivity. Qed.

(** An amount below zero, which [SubBalance] can leave behind when its
    caller has not checked the balance, is not serialized either: [getCoins]
    keeps the amounts above zero. *)
Example overdrawn_encoding :
  eval (EncodeRLP_balances (mkBalances (Some 0%nat)))
       (mkMemory [ <[coin_A := -1]> (<[coin_B := 7]> ∅) ] [])
  = [mkBalance coin_B 7].
Proof. vm_compute. reflexivity. Qed.

(** C6. In the list of entries that [EncodeRLP] hands to [rlp.Encode],
    a coin whose bytes spell the larger big-endian number comes first:
    whenever [a]'s number exceeds [c]'s, every entry for [a] is at a
    smaller index than every entry for [c]; and when the map holds both
    with an amount that is serialized (a positive one), both entries are
    there, [a]'s before [c]'s. *)
Theorem EncodeRLP_descending mem b a c :
  coin_value a > coin_value c ->
  (forall i j ea ec,
     eval (EncodeRLP_balances b) mem !! i = Some ea -> Coin ea = a ->
     eval (EncodeRLP_balances b) mem !! j = Some ec -> Coin ec = c ->
     (i < j)%nat)
  /\ (forall va vc,
        contents mem b !! a = Some va -> 0 < va ->
        contents mem b !! c = Some vc -> 0 < vc ->
        exists i j, (i < j)%nat
          /\ eval (EncodeRLP_balances b) mem !! i = Some (mkBalance a va)
          /\ eval (EncodeRLP_balances b) mem !! j = Some (mkBalance c vc)).
Proof.
  intros Hgt.
  assert (Hord : forall i j ea ec,
     eval (EncodeRLP_balances b) mem !! i = Some ea -> Coin ea = a ->
     eval (EncodeRLP_balances b) mem !! j = Some ec -> Coin ec = c ->
     (i < j)%nat).
  { intros i j ea ec Hi Ha Hj Hc.
    assert (Ki : getCoins_range (map_to_list (contents mem b)) !! i = Some a).
    { rewrite <- EncodeRLP_balances_coins, list_lookup_fmap, Hi. simpl. by f_equal. }
    assert (Kj : getCoins_range (map_to_list (contents mem b)) !! j = Some c).
    { rewrite <- EncodeRLP_balances_coins, list_lookup_fmap, Hj. simpl. by f_equal. }
    destruct (Nat.lt_trichotomy i j) as [Hlt|[Heq|Hlt]]; [done| |].
    - subst j. rewrite Ki in Kj. injection Kj as ->. lia.
    - pose proof (StronglySorted_lookup_lt _ _ _ _ _ _
                    (getCoins_range_sorted _) Kj Ki Hlt) as Hs.
      simpl in Hs. apply getCoins_less_false in Hs. lia. }
  split; [exact Hord|].
  intros va vc Ha Hpa Hc Hpc.
  assert (Ia : mkBalance a va ∈ eval (EncodeRLP_balances b) mem)
    by (by apply elem_of_EncodeRLP_balances).
  assert (Ic : mkBalance c vc ∈ eval (EncodeRLP_balances b) mem)
    by (by apply elem_of_EncodeRLP_balances).
  apply list_elem_of_lookup_1 in Ia as [i Hi], Ic as [j Hj].
  exists i, j. split; [|done]. by apply (Hord i j _ _ Hi eq_refl Hj eq_refl).
Qed.

Lemma EncodeRLP_descending_witness :
  (forall i j ea ec,
     eval (EncodeRLP_balances ledger) ledger_mem !! i = Some ea ->
     Coin ea = coin_B ->
     eval (EncodeRLP_balances ledger) ledger_mem !! j = Some ec ->
     Coin ec = coin_A ->
     (i < j)%nat)
  /\ (forall va vc,
        contents ledger_mem ledger !! coin_B = Some va -> 0 < va ->
        contents ledger_mem ledger !! coin_A = Some vc -> 0 < vc ->
        exists i j, (i < j)%nat
          /\ eval (EncodeRLP_balances ledger) ledger_mem !! i
             = Some (mkBalance coin_B va)
          /\ eval (EncodeRLP_balances ledger) ledger_mem !! j
             = Some (mkBalance coin_A vc)).
Proof.
  apply (EncodeRLP_descending ledger_mem ledger coin_B coin_A).
  vm_compute. reflexivity.
Defined.

(** *** Decoding *)

(** The map that the loop of [DecodeRLP] builds from [m]: one assignment
    per entry, in order, so a later entry for a coin overwrites an earlier
    one. *)
Definition assign_entries (balances : list Balance) (m : CoinMap) : CoinMap :=
  fold_left (fun m v => <[Coin v := Amount v]> m) balances m.

Lemma assign_entries_not_in balances m c :
  c ∉ Coin <$> balances -> assign_entries balances m !! c = m !! c.
Proof.
  revert m. induction balances as [|e balances IH]; intros m Hc; [done|].
  rewrite fmap_cons, not_elem_of_cons in Hc. destruct Hc as [Hne Hc].
  unfold assign_entries in *. simpl. rewrite IH by done.
  by rewrite lookup_insert_ne.
Qed.

Lemma assign_entries_last_wins balances e m :
  assign_entries (balances ++ [e]) m !! Coin e = Some (Amount e).
Proof.
  unfold assign_entries. rewrite fold_left_app. simpl.
  by rewrite lookup_insert_eq.
Qed.

Lemma assign_entries_NoDup balances m c v :
  NoDup (Coin <$> balances) -> mkBalance c v ∈ balances ->
  assign_entries balances m !! c = Some v.
Proof.
  revert m. induction balances as [|e balances IH]; intros m Hnd Hin.
  - by apply elem_of_nil in Hin.
  - rewrite fmap_cons in Hnd. apply NoDup_cons in Hnd as [Hfresh Hnd].
    apply elem_of_cons in Hin as [<-|Hin].
    + change (assign_entries balances (<[c := v]> m) !! c = Some v).
      rewrite assign_entries_not_in by done. by rewrite lookup_insert_eq.
    + change (assign_entries balances (<[Coin e := Amount e]> m) !! c = Some v).
      by apply IH.
Qed.

Lemma assign_entries_lookup balances c v :
  NoDup (Coin <$> balances) ->
  assign_entries balances ∅ !! c = Some v <-> mkBalance c v ∈ balances.
Proof.
  intros Hnd. split; [|by apply assign_entries_NoDup].
  intros Hl. destruct (decide (c ∈ Coin <$> balances)) as [Hin|Hin].
  - apply list_elem_of_fmap in Hin as ([c' v'] & -> & Hin). simpl in *.
    rewrite (assign_entries_NoDup _ _ _ v' Hnd Hin) in Hl. by injection Hl as ->.
  - by rewrite assign_entries_not_in, lookup_empty in Hl.
Qed.

Lemma DecodeRLP_loop_run l balances mem :
  trace (exec (DecodeRLP_loop (Some l) balances) mem) = trace mem
  /\ forall l',
       maps (exec (DecodeRLP_loop (Some l) balances) mem) !! l'
       = if decide (l' = l)
         then assign_entries balances <$> maps mem !! l
         else maps mem !! l'.
Proof.
  revert mem. induction balances as [|e balances IH]; intros mem.
  - run_M. split; [done|]. intros l'. case_decide; [subst|done].
    unfold assign_entries. simpl. by destruct (maps mem !! l).
  - specialize (IH (exec (map_assign l (Coin e) (Amount e)) mem)).
    destruct IH as [IHt IHm].
    change (exec (DecodeRLP_loop (Some l) (e :: balances)) mem)
      with (exec (DecodeRLP_loop (Some l) balances)
                 (exec (map_assign l (Coin e) (Amount e)) mem)).
    split; [by rewrite IHt|].
    intros l'. rewrite IHm. unfold exec, map_assign. cbn [snd maps].
    case_decide.
    + rewrite list_lookup_alter_eq. by destruct (maps mem !! l) as [m0|].
    + rewrite list_lookup_alter_ne; [done|]. congruence.
Qed.

Lemma EncodeRLP_balances_positive mem b :
  Forall (fun e => 0 < Amount e) (eval (EncodeRLP_balances b) mem).
Proof.
  apply Forall_forall. intros [k v] Hin.
  by apply elem_of_EncodeRLP_balances in Hin as [_ Hpos].
Qed.

Lemma EncodeRLP_balances_NoDup mem b :
  NoDup (Coin <$> eval (EncodeRLP_balances b) mem).
Proof. rewrite EncodeRLP_balances_coins. apply NoDup_getCoins_range. Qed.

(** A byte codec for lists of entries, one bit per byte: with it, what the
    round trip assumes of the [rlp] package can be met. *)
Global Instance Balance_eq_dec : EqDecision Balance.
Proof. solve_decision. Defined.

Global Instance Balance_countable : Countable Balance :=
  inj_countable' (fun e => (Coin e, Amount e))
                 (fun p => mkBalance (fst p) (snd p))
                 (fun e => match e with mkBalance _ _ => eq_refl end).

Fixpoint bits_of_positive (p : positive) : list byte :=
  match p with
  | xH => []
  | xO p => x00 :: bits_of_positive p
  | xI p => x01 :: bits_of_positive p
  end.

Fixpoint positive_of_bits (w : list byte) : positive :=
  match w with
  | [] => xH
  | b :: w => if bool_decide (b = x01) then xI (positive_of_bits w)
              else xO (positive_of_bits w)
  end.

Definition bitwise_Encode (l : list Balance) : result (list byte) :=
  Ok (bits_of_positive (encode l)).

Definition bitwise_Decode (w : list byte) : result (list Balance) :=
  match decode (positive_of_bits w) with
  | Some l => Ok l
  | None => Err (errors_New "malformed input")
  end.

Lemma positive_of_bits_of_positive p :
  positive_of_bits (bits_of_positive p) = p.
Proof. induction p as [p IH|p IH|]; simpl; by rewrite ?IH. Qed.

Lemma bitwise_roundtrip l :
  exists w, bitwise_Encode l = Ok w /\ bitwise_Decode w = Ok l.
Proof.
  exists (bits_of_positive (encode l)). split; [done|].
  unfold bitwise_Decode. by rewrite positive_of_bits_of_positive, decode_encode.
Qed.

Section RoundTrip.

Variable rlp_Encode : list Balance -> result (list byte).
Variable rlp_Decode : list byte -> result (list Balance).

(** [EncodeRLP] only reads. *)
Lemma Balances_EncodeRLP_run mem b :
  Balances_EncodeRLP rlp_Encode b mem
  = (rlp_Encode (eval (EncodeRLP_balances b) mem), mem).
Proof.
  unfold Balances_EncodeRLP, eval, mbind, M_bind, bind.
  rewrite EncodeRLP_balances_run. done.
Qed.

(** Decoding into a fresh [Balances] value allocates one map and fills it
    with the decoded entries. *)
Lemma Balances_DecodeRLP_fresh w balances mem :
  rlp_Decode w = Ok balances ->
  exists b' mem',
    Balances_DecodeRLP rlp_Decode (mkBalances None) w mem = (b', Ok tt, mem')
    /\ contents mem' b' = assign_entries balances ∅
    /\ trace mem' = trace mem
    /\ forall l, (l < length (maps mem))%nat -> maps mem' !! l = maps mem !! l.
Proof.
  intros Hdec.
  pose (mem1 := mkMemory (maps mem ++ [∅]) (trace mem)).
  pose (l := length (maps mem)).
  exists (mkBalances (Some l)), (exec (DecodeRLP_loop (Some l) balances) mem1).
  destruct (DecodeRLP_loop_run l balances mem1) as [Ht Hm].
  split; [|split; [|split]].
  - unfold Balances_DecodeRLP, mbind, M_bind, bind, make_map, mret, M_ret, ret.
    cbn [Data]. rewrite Hdec. fold l. fold mem1. unfold exec.
    by destruct (DecodeRLP_loop (Some l) balances mem1) as [[] mem'].
  - unfold contents, eval, map_read. cbn [fst Data].
    rewrite Hm, decide_True by done. unfold mem1, l. cbn [maps].
    by rewrite list_lookup_middle.
  - by rewrite Ht.
  - intros l' Hl'. rewrite Hm, decide_False by (unfold l; lia).
    unfold mem1. cbn [maps]. by rewrite lookup_app_l.
Qed.

(** [Decode(Encode(B))] holds exactly the entries of [B] with a positive
    amount, whatever [B] holds. *)
Lemma Balances_DecodeRLP_EncodeRLP mem b w mem2 :
  rlp_Decode w = Ok (eval (EncodeRLP_balances b) mem) ->
  exists b' mem2',
    Balances_DecodeRLP rlp_Decode (mkBalances None) w mem2 = (b', Ok tt, mem2')
    /\ forall c v, contents mem2' b' !! c = Some v
                   <-> contents mem b !! c = Some v /\ 0 < v.
Proof.
  intros Hdec.
  destruct (Balances_DecodeRLP_fresh w _ mem2 Hdec) as (b' & mem2' & Hrun & Hc & _).
  exists b', mem2'. split; [done|]. intros c v.
  rewrite Hc, assign_entries_lookup by apply EncodeRLP_balances_NoDup.
  apply elem_of_EncodeRLP_balances.
Qed.

(** What the round trip assumes of the [rlp] package: a list of entries
    with positive amounts is encoded without error, and decoding the bytes
    gives the list back. *)
Hypothesis rlp_roundtrip :
  forall l, Forall (fun e => 0 < Amount e) l ->
            exists w, rlp_Encode l = Ok w /\ rlp_Decode w = Ok l.

(** C5. For a [Balances] value whose amounts are not negative (the data
    model's invariant), [EncodeRLP] succeeds and leaves the memory as it
    is, no entry handed to the encoder has a zero amount, and decoding the
    bytes into a fresh [Balances] value, in any memory, yields a mapping
    whose entries with a non-zero amount are exactly those of the
    original. *)
Theorem Balances_roundtrip mem b :
  map_Forall (fun _ v => 0 <= v) (contents mem b) ->
  exists w,
    Balances_EncodeRLP rlp_Encode b mem = (Ok w, mem)
    /\ Forall (fun e => Amount e <> 0) (eval (EncodeRLP_balances b) mem)
    /\ forall mem2, exists b' mem2',
         Balances_DecodeRLP rlp_Decode (mkBalances None) w mem2
         = (b', Ok tt, mem2')
         /\ forall c v, v <> 0 ->
              (contents mem2' b' !! c = Some v
               <-> contents mem b !! c = Some v).
Proof.
  intros Hnn.
  destruct (rlp_roundtrip _ (EncodeRLP_balances_positive mem b))
    as (w & Henc & Hdec).
  exists w. split; [|split].
  - by rewrite Balances_EncodeRLP_run, Henc.
  - eapply Forall_impl; [apply EncodeRLP_balances_positive|].
    intros e He. simpl in He. lia.
  - intros mem2.
    destruct (Balances_DecodeRLP_EncodeRLP mem b w mem2 Hdec)
      as (b' & mem2' & Hrun & Hl).
    exists b', mem2'. split; [done|]. intros c v Hv. rewrite Hl.
    split; [by intros [? _]|]. intros Hc. split; [done|].
    specialize (Hnn c v Hc). simpl in Hnn. lia.
Qed.

End RoundTrip.

Lemma Balances_roundtrip_witness :
  exists w,
    Balances_EncodeRLP bitwise_Encode ledger ledger_mem = (Ok w, ledger_mem)
    /\ Forall (fun e => Amount e <> 0)
              (eval (EncodeRLP_balances ledger) ledger_mem)
    /\ forall mem2, exists b' mem2',
         Balances_DecodeRLP bitwise_Decode (mkBalances None) w mem2
         = (b', Ok tt, mem2')
         /\ forall c v, v <> 0 ->
              (contents mem2' b' !! c = Some v
               <-> contents ledger_mem ledger !! c = Some v).
Proof.
  apply (Balances_roundtrip bitwise_Encode bitwise_Decode).
  - intros l _. apply bitwise_roundtrip.
  - change (contents ledger_mem ledger)
      with (<[coin_A := 5]> (<[coin_B := 7]> (<[coin_Z := 0]> (∅ : CoinMap)))).
    repeat (apply map_Forall_insert_2; [simpl; lia|]).
    apply map_Forall_empty.
Defined.

End state_facts.

(** ** Package [state]: the state object *)

Module stateObject_facts.
Import types state state_facts.

(** A call of one of the mutating methods of a state object. *)
Inductive mutation : Type :=
| CallSetBalance (coinSymbol : CoinSymbol) (amount : Z)
| CallAddBalance (coinSymbol : CoinSymbol) (amount : Z)
| CallSubBalance (coinSymbol : CoinSymbol) (amount : Z)
| CallSetNonce (nonce : Z)
| CallMarkSuicided
| CallTouch.

Definition call (op : mutation) (self : stateObject) : M stateObject :=
  match op with
  | CallSetBalance coinSymbol amount => SetBalance self coinSymbol amount
  | CallAddBalance coinSymbol amount => AddBalance self coinSymbol amount
  | CallSubBalance coinSymbol amount => SubBalance self coinSymbol amount
  | CallSetNonce nonce => SetNonce self nonce
  | CallMarkSuicided => markSuicided self
  | CallTouch => touch self
  end.

Fixpoint calls (ops : list mutation) (self : stateObject) : M stateObject :=
  match ops with
  | [] => ret self
  | op :: ops => self ← call op self; calls ops self
  end.

(** A call that mutates: every one of them, except [AddBalance] and
    [SubBalance] with a zero amount, which return at once. *)
Definition mutates (op : mutation) : bool :=
  match op with
  | CallAddBalance _ amount | CallSubBalance _ amount => negb (amount =? 0)
  | _ => true
  end.

(** The invocations of dirty callbacks recorded in a trace. *)
Definition dirty_calls (tr : list event) : list (callback * Address) :=
  omap (fun e => match e with
                 | EvDirty cb addr => Some (cb, addr)
                 | EvBalanceChange _ _ _ => None
                 end) tr.

Lemma dirty_calls_app tr1 tr2 :
  dirty_calls (tr1 ++ tr2) = dirty_calls tr1 ++ dirty_calls tr2.
Proof. apply omap_app. Qed.

(** What one call does to the callback: the notification it makes and the
    callback it leaves. *)
Definition notified (s : stateObject) (fired : bool) : list (callback * Address) :=
  match onDirty s with
  | Some f => if fired then [(f, address s)] else []
  | None => []
  end.

Lemma fire_onDirty_run s mem :
  dirty_calls (trace (exec (fire_onDirty s) mem))
  = dirty_calls (trace mem) ++ notified s true
  /\ onDirty (eval (fire_onDirty s) mem) = None
  /\ address (eval (fire_onDirty s) mem) = address s.
Proof.
  unfold fire_onDirty, notified, stateObject_Address.
  destruct (onDirty s) as [f|] eqn:E; run_M.
  - by rewrite dirty_calls_app.
  - by rewrite app_nil_r.
Qed.

Lemma setBalance_run s coinSymbol amount mem :
  dirty_calls (trace (exec (setBalance s coinSymbol amount) mem))
  = dirty_calls (trace mem) ++ notified s true
  /\ onDirty (eval (setBalance s coinSymbol amount) mem) = None
  /\ address (eval (setBalance s coinSymbol amount) mem) = address s.
Proof.
  unfold setBalance, fire_onDirty, notified, stateObject_Address.
  destruct (Data (Account_Balance (data s))) as [l|] eqn:EL;
    destruct (onDirty s) as [f|] eqn:E; run_M; rewrite ?EL, ?E; simpl;
    rewrite ?dirty_calls_app, ?app_nil_r; done.
Qed.

Lemma SetBalance_run s coinSymbol amount mem :
  dirty_calls (trace (exec (SetBalance s coinSymbol amount) mem))
  = dirty_calls (trace mem) ++ notified s true
  /\ onDirty (eval (SetBalance s coinSymbol amount) mem) = None
  /\ address (eval (SetBalance s coinSymbol amount) mem) = address s.
Proof.
  unfold SetBalance, setBalance, fire_onDirty, notified, stateObject_Address.
  destruct (Data (Account_Balance (data s))) as [l|] eqn:EL;
    destruct (onDirty s) as [f|] eqn:E; run_M; rewrite ?EL, ?E; simpl;
    rewrite ?dirty_calls_app, ?app_nil_r; simpl; rewrite ?app_nil_r; done.
Qed.

Lemma stateObject_Balance_run s coinSymbol mem :
  exec (stateObject_Balance s coinSymbol) mem = mem.
Proof.
  unfold stateObject_Balance.
  destruct (Data (Account_Balance (data s))) as [l|]; run_M; [|done].
  by destruct (default ∅ (maps mem !! l) !! coinSymbol).
Qed.

Lemma bind_stateObject_Balance {A} s coinSymbol (k : Z -> M A) mem :
  (bal ← stateObject_Balance s coinSymbol; k bal) mem
  = k (eval (stateObject_Balance s coinSymbol) mem) mem.
Proof.
  pose proof (stateObject_Balance_run s coinSymbol mem) as H.
  unfold mbind, M_bind, bind, eval, exec in *.
  destruct (stateObject_Balance s coinSymbol mem) as [bal mem']. simpl in *.
  by subst.
Qed.

(** One call: it notifies iff it mutates and a callback is stored, and a
    call that mutates clears the stored callback. *)
Lemma call_run op s mem :
  dirty_calls (trace (exec (call op s) mem))
  = dirty_calls (trace mem) ++ notified s (mutates op)
  /\ onDirty (eval (call op s) mem)
     = (if mutates op then None else onDirty s)
  /\ address (eval (call op s) mem) = address s.
Proof.
  assert (Hidle : dirty_calls (trace mem)
                  = dirty_calls (trace mem) ++ notified s false).
  { unfold notified. destruct (onDirty s); by rewrite app_nil_r. }
  destruct op as [c a|c a|c a|n| |]; simpl.
  - apply SetBalance_run.
  - unfold AddBalance, big.Sign, empty.
    destruct (Z.eqb_spec a 0) as [->|Hne]; simpl.
    + by run_M.
    + destruct (Z.eqb_spec (Z.sgn a) 0) as [E|_]; [lia|].
      unfold eval, exec. rewrite bind_stateObject_Balance.
      apply SetBalance_run.
  - unfold SubBalance, big.Sign.
    destruct (Z.eqb_spec a 0) as [->|Hne]; simpl.
    + by run_M.
    + destruct (Z.eqb_spec (Z.sgn a) 0) as [E|_]; [lia|].
      unfold eval, exec. rewrite bind_stateObject_Balance.
      apply SetBalance_run.
  - unfold SetNonce, setNonce.
    destruct (fire_onDirty_run (with_Nonce s n) mem) as (H1 & H2 & H3).
    by rewrite H1, H2, H3.
  - unfold markSuicided.
    destruct (fire_onDirty_run (with_suicided s true) mem) as (H1 & H2 & H3).
    by rewrite H1, H2, H3.
  - destruct (fire_onDirty_run s mem) as (H1 & H2 & H3).
    unfold touch, eval, exec, mbind, M_bind, bind, mret, M_ret, ret in *.
    destruct (fire_onDirty s mem) as [s' mem']. simpl in *.
    by rewrite H1.
Qed.

Lemma calls_run ops s mem :
  dirty_calls (trace (exec (calls ops s) mem))
  = dirty_calls (trace mem) ++ notified s (existsb mutates ops)
  /\ onDirty (eval (calls ops s) mem)
     = (if existsb mutates ops then None else onDirty s)
  /\ address (eval (calls ops s) mem) = address s.
Proof.
  revert s mem. induction ops as [|op ops IH]; intros s mem.
  - simpl. unfold notified. run_M. destruct (onDirty s); by rewrite app_nil_r.
  - destruct (call_run op s mem) as (H1 & H2 & H3).
    specialize (IH (eval (call op s) mem) (exec (call op s) mem)).
    destruct IH as (I1 & I2 & I3).
    change (calls (op :: ops) s) with (s ← call op s; calls ops s).
    unfold eval, exec, mbind, M_bind, bind in *.
    destruct (call op s mem) as [s1 mem1]. simpl in *.
    rewrite I1, I2, I3, H1, H3. unfold notified in *. rewrite H2, H3.
    destruct (mutates op); simpl.
    + rewrite app_nil_r. by destruct (existsb mutates ops).
    + by destruct (onDirty s); rewrite ?app_nil_r.
Qed.

Lemma newObject_run addr data cb mem :
  trace (exec (newObject addr data cb) mem) = trace mem
  /\ onDirty (eval (newObject addr data cb) mem) = cb
  /\ address (eval (newObject addr data cb) mem) = addr.
Proof.
  unfold newObject. destruct (Data (Account_Balance data)); by run_M.
Qed.

(** The life of a state object: [newObject], then a sequence of calls. *)
Definition lifetime (addr : Address) (data : Account) (cb : option callback)
  (ops : list mutation) : M stateObject :=
  obj ← newObject addr data cb; calls ops obj.

(** C4. Over the life of a state object, with any sequence of calls of its
    mutating methods: the callback given to [newObject] is invoked exactly
    once, with the object's address, if some call of the sequence mutates
    (every call does, except [AddBalance] and [SubBalance] with a zero
    amount) and never otherwise; once a call has mutated the stored
    callback is nil; so the number of invocations is at most one.  The
    statement holds for every sequence, hence for every prefix of one: the
    invocation is made by the first call that mutates, and the calls after
    it add none. *)
Theorem dirty_callback_once addr data cb ops mem :
  dirty_calls (trace (exec (lifetime addr data cb ops) mem))
  = dirty_calls (trace mem)
    ++ match cb with
       | Some f => if existsb mutates ops then [(f, addr)] else []
       | None => []
       end
  /\ onDirty (eval (lifetime addr data cb ops) mem)
     = (if existsb mutates ops then None else cb)
  /\ (length (dirty_calls (trace (exec (lifetime addr data cb ops) mem)))
      <= length (dirty_calls (trace mem)) + 1)%nat.
Proof.
  destruct (newObject_run addr data cb mem) as (N1 & N2 & N3).
  destruct (calls_run ops (eval (newObject addr data cb) mem)
                      (exec (newObject addr data cb) mem)) as (C1 & C2 & _).
  unfold lifetime, eval, exec, mbind, M_bind, bind in *.
  destruct (newObject addr data cb mem) as [obj mem1]. simpl in *.
  unfold notified in C1. rewrite N1, N2, N3 in C1. rewrite N2 in C2.
  split; [exact C1|]. split; [exact C2|].
  rewrite C1, length_app.
  destruct cb; [destruct (existsb mutates ops)|]; simpl; lia.
Qed.

(** *** [deepCopy] *)

(** [deepCopy] copies the reference to the balance map, not the map: the
    copy of an object made by [newObject] refers to the very map object
    the original refers to, and no map is allocated. *)
Lemma deepCopy_same_map self cb mem l :
  Data (Account_Balance (data self)) = Some l ->
  Data (Account_Balance (data (eval (deepCopy self cb) mem))) = Some l
  /\ exec (deepCopy self cb) mem = mem.
Proof.
  intros Hl. unfold deepCopy, newObject. rewrite Hl. by run_M.
Qed.

(** Every object made by [newObject] refers to a map. *)
Lemma newObject_has_map addr data cb mem :
  exists l,
    Data (Account_Balance (state.data (eval (newObject addr data cb) mem)))
    = Some l.
Proof.
  unfold newObject. destruct (Data (Account_Balance data)) as [l|] eqn:E.
  - exists l. by run_M.
  - exists (length (maps mem)). by run_M.
Qed.

(** Consequently a balance written through either object is read through
    the other. *)
Lemma SetBalance_seen_through_alias s1 s2 l coinSymbol amount mem :
  Data (Account_Balance (data s1)) = Some l ->
  Data (Account_Balance (data s2)) = Some l ->
  (l < length (maps mem))%nat ->
  eval (stateObject_Balance s2 coinSymbol)
       (exec (SetBalance s1 coinSymbol amount) mem) = amount.
Proof.
  intros H1 H2 Hl.
  unfold SetBalance, setBalance, fire_onDirty, stateObject_Balance.
  rewrite H1, H2.
  destruct (lookup_lt_is_Some_2 (maps mem) l Hl) as [m Hm].
  run_M. rewrite H1. simpl.
  destruct (onDirty s1); simpl;
    rewrite list_lookup_alter_eq, Hm; simpl;
    by rewrite lookup_insert_eq.
Qed.

(** The scenario of the deep-copy property: an object is created and
    copied; a balance is then set on one of the two and read on the
    other. *)
Definition fresh_account : Account := mkAccount 0 (mkBalances None) 0.

Definition write_copy_read_original : M (Z * Z) :=
  original ← newObject 7 fresh_account None;
  copy ← deepCopy original None;
  before ← stateObject_Balance original coin_A;
  _ ← SetBalance copy coin_A 5;
  after ← stateObject_Balance original coin_A;
  ret (before, after).

Definition write_original_read_copy : M (Z * Z) :=
  original ← newObject 7 fresh_account None;
  copy ← deepCopy original None;
  before ← stateObject_Balance copy coin_A;
  _ ← AddBalance original coin_A 5;
  after ← stateObject_Balance copy coin_A;
  ret (before, after).

(** C2. On the code the deep-copy property fails: after [deepCopy], a
    balance set on the copy is the balance of the original (it was 0 and
    reads 5), and a balance added on the original is the balance of the
    copy. *)
Theorem deepCopy_shares_balances :
  eval write_copy_read_original (mkMemory [] []) = (0, 5)
  /\ eval write_original_read_copy (mkMemory [] []) = (0, 5).
Proof. split; vm_compute; reflexivity. Qed.

End stateObject_facts.

(** ** Pigeons and holes

    [n + 1] numbers below [n] cannot be distinct. *)

Lemma bounded_search (n : nat) (P : nat -> Prop) :
  (forall i, {P i} + {~ P i}) ->
  (exists i, (i <= n)%nat /\ P i) \/ (forall i, (i <= n)%nat -> ~ P i).
Proof.
  intros dec. induction n as [|n IH].
  - destruct (dec 0%nat) as [H|H].
    + left. exists 0%nat. split; [lia|done].
    + right. intros i Hi. by replace i with 0%nat by lia.
  - destruct IH as [(i & Hi & HP)|IH].
    + left. exists i. split; [lia|done].
    + destruct (dec (S n)) as [H|H].
      * left. exists (S n). split; [lia|done].
      * right. intros i Hi. destruct (decide (i = S n)) as [->|Hne]; [done|].
        apply IH. lia.
Qed.

Lemma pigeonhole (n : nat) (f : nat -> Z) :
  (forall i, (i <= n)%nat -> 0 <= f i < Z.of_nat n) ->
  exists i j, (i < j <= n)%nat /\ f i = f j.
Proof.
  revert f. induction n as [|n IH]; intros f Hf.
  - specialize (Hf 0%nat). lia.
  - destruct (bounded_search n (fun i => f i = f (S n))) as [(i & Hi & E)|Hne].
    + intros i. apply Z.eq_dec.
    + exists i, (S n). split; [lia|done].
    + pose (g := fun i => if f i <? f (S n) then f i else f i - 1).
      destruct (IH g) as (i & j & Hij & E).
      * intros i Hi. unfold g.
        pose proof (Hf i ltac:(lia)). pose proof (Hf (S n) ltac:(lia)).
        pose proof (Hne i Hi).
        destruct (Z.ltb_spec (f i) (f (S n))); lia.
      * exists i, j. split; [lia|]. unfold g in E.
        pose proof (Hne i ltac:(lia)). pose proof (Hne j ltac:(lia)).
        destruct (Z.ltb_spec (f i) (f (S n))),
                 (Z.ltb_spec (f j) (f (S n))); lia.
Qed.

(** A function into the numbers below [m] takes some value twice on
    [0 .. m]. *)
Lemma collision_below (m : Z) (f : Z -> Z) :
  0 < m -> (forall x, 0 <= f x < m) ->
  exists x y, 0 <= x < y /\ y <= m /\ f x = f y.
Proof.
  intros Hm Hf.
  destruct (pigeonhole (Z.to_nat m) (fun i => f (Z.of_nat i)))
    as (i & j & Hij & E).
  - intros i _. rewrite Z2Nat.id by lia. apply Hf.
  - exists (Z.of_nat i), (Z.of_nat j). split; [lia|]. split; [lia|done].
Qed.

(** ** Package [check] *)

Module check_facts.
Import types check.

(** *** The two hashes of a check *)


(** Two checks that differ in [Lock] and in nothing else. *)
Definition differ_only_in_Lock (c1 c2 : Check) : Prop :=
  Nonce c1 = Nonce c2 /\ DueBlock c1 = DueBlock c2 /\ Coin c1 = Coin c2
  /\ Value c1 = Value c2 /\ V c1 = V c2 /\ R c1 = R c2 /\ S c1 = S c2
  /\ Lock c1 <> Lock c2.

(** [check] with another [Lock]. *)
Definition with_Lock (check : Check) (lock : option Z) : Check :=
  mkCheck (Nonce check) (DueBlock check) (Coin check) (Value check) lock
          (V check) (R check) (S check).




(** The recovery id that [recoverPlain] computes from [Vb]:
    [byte(Vb.Uint64() - 27)]. *)
Definition recovery_id (Vb : Z) : Z :=
  ((big.Uint64 Vb - 27) mod 2 ^ 64) mod 2 ^ 8.

(** A check that carries the three signature components. *)
Definition signed (content : Check) (v r s : Z) : Check :=
  mkCheck (Nonce content) (DueBlock content) (Coin content) (Value content)
          (Lock content) (Some v) (Some r) (Some s).

(** *** Stand-ins for the examples

    An encoder of item lists that is injective (one bit per byte of the
    code of the list), a digest that is not constant (the bytes as the
    digits of a number to the base 257, modulo [2^256]), a validation that accepts the recovery ids 0 and 1 with R and
    S in the range of 32 bytes, and a recovery that fails on other
    recovery ids and else yields a key in uncompressed form made of the
    signature. *)

Global Instance rlp_item_eq_dec : EqDecision rlp_item.
Proof. solve_decision. Defined.

Global Instance rlp_item_countable : Countable rlp_item :=
  inj_countable'
    (fun x => match x with
              | rlp_uint64 n => inl (inl n)
              | rlp_CoinSymbol c => inl (inr c)
              | rlp_bigInt x => inr x
              end)
    (fun y => match y with
              | inl (inl n) => rlp_uint64 n
              | inl (inr c) => rlp_CoinSymbol c
              | inr x => rlp_bigInt x
              end)
    (fun x => match x with
              | rlp_uint64 _ | rlp_CoinSymbol _ | rlp_bigInt _ => eq_refl
              end).

Definition bitwise_items (x : list rlp_item) : list byte :=
  state_facts.bits_of_positive (encode x).

Definition number_digest (w : list byte) : Z :=
  fold_left (fun acc b => (acc * 257 + byte_to_Z b + 1) mod 2 ^ 256) w 0.

Definition validate_scalars (id r s : Z) : bool :=
  (0 <=? id) && (id <? 2) && (0 <? r) && (r <? 2 ^ 256)
  && (0 <? s) && (s <? 2 ^ 256).

Definition recover_from_sig (hash : Hash) (sig : list byte)
  : result (list byte) :=
  match sig !! 64%nat with
  | Some id =>
      if byte_to_Z id <? 2 then Ok (x04 :: take 64 sig)
      else Err (errors_New "invalid signature recovery id")
  | None => Err (errors_New "invalid signature length")
  end.

(** The check of the spec's example: nonce 1, due block 1000, coin X,
    value 100, and a lock. *)
Definition cheque : Check :=
  mkCheck 1 1000 (coin_of_bytes [x58]) (Some 100) (Some 7) None None None.

(** Other stand-ins: an encoder that writes nothing, a constant digest, a
    recovery that fails. *)
Definition no_bytes (x : list rlp_item) : list byte := [].
Definition zero_digest (w : list byte) : Z := 0.


Lemma invalid_public_key_false pub :
  invalid_public_key pub = false <-> exists rest, pub = x04 :: rest.
Proof.
  destruct pub as [|b rest]; simpl.
  - split; [done|]. by intros [? ?].
  - rewrite negb_false_iff, Z.eqb_eq. split.
    + intros H. exists rest. f_equal.
      rewrite <- (byte_of_to_Z b), H. reflexivity.
    + by intros [? [= -> _]].
Qed.

Section Hashes.

Variable rlp_Encode : list rlp_item -> list byte.
Variable Keccak256 : list byte -> Z.
Variable Ecrecover : Hash -> list byte -> result (list byte).

Lemma rlpHash_range x : 0 <= rlpHash rlp_Encode Keccak256 x < 2 ^ 256.
Proof. unfold rlpHash. apply Z.mod_pos_bound. lia. Qed.

(** Why the hashes of two checks are said to differ "unless the digest
    collides": [Hash()] has 32 bytes and [Lock] is unbounded, so that among
    the checks that differ from a given one only in [Lock] some two have
    the same [Hash()], whatever the digest function is. *)
Lemma Check_Hash_collision (check : Check) :
  exists c1 c2, differ_only_in_Lock c1 c2
    /\ Check_Hash rlp_Encode Keccak256 c1 = Check_Hash rlp_Encode Keccak256 c2.
Proof.
  destruct (collision_below (2 ^ 256)
              (fun x => Check_Hash rlp_Encode Keccak256
                          (with_Lock check (Some x))))
    as (x & y & Hxy & _ & E).
  - lia.
  - intros x. apply rlpHash_range.
  - exists (with_Lock check (Some x)), (with_Lock check (Some y)).
    split; [|exact E]. unfold differ_only_in_Lock. simpl.
    repeat split; try done. intros [= ->]. lia.
Qed.


End Hashes.


(** *** [Sender] *)

Lemma recovery_id_byte v :
  0 <= v < 256 -> recovery_id v = (v - 27) mod 256.
Proof.
  intros Hv. unfold recovery_id, big.Uint64.
  rewrite Z.abs_eq, (Z.mod_small v) by lia.
  apply Z.mod_mod_divide. by exists (2 ^ 56).
Qed.

Section Recovery.

Variable rlp_Encode : list rlp_item -> list byte.
Variable Keccak256 : list byte -> Z.
Variable Ecrecover : Hash -> list byte -> result (list byte).
Variable ValidateSignatureValues : Z -> Z -> Z -> bool.

Abbreviation Sender' :=
  (Sender rlp_Encode Keccak256 Ecrecover ValidateSignatureValues).
Abbreviation Hash' := (Check_Hash rlp_Encode Keccak256).

Abbreviation sig' v r s :=
  (encode_sig (big.Bytes r) (big.Bytes s) (recovery_id v)).

Abbreviation recovered content v r s :=
  (Ecrecover (Hash' (signed content v r s)) (sig' v r s)).

(** [R.Bytes()] and [S.Bytes()] fit the slice expressions of
    [recoverPlain] exactly when R is below [2^256] and S below [2^512] in
    absolute value. *)
Lemma Bytes_fit r s :
  (32 <? length (big.Bytes r))%nat || (64 <? length (big.Bytes s))%nat = false
  <-> Z.abs r < 2 ^ 256 /\ Z.abs s < 2 ^ 512.
Proof.
  rewrite orb_false_iff, !Nat.ltb_ge, !big_facts.Bytes_length_le.
  change (256 ^ Z.of_nat 32) with (2 ^ 256).
  change (256 ^ Z.of_nat 64) with (2 ^ 512). done.
Qed.

(** The steps of [recoverPlain], one after the other. *)
Lemma Sender_rejected content v r s :
  256 <= Z.abs v \/ ValidateSignatureValues (recovery_id v) r s = false ->
  Sender' (signed content v r s) = Err ErrInvalidSig.
Proof.
  unfold Sender, recoverPlain, signed. cbn [V R S]. fold (recovery_id v).
  intros [Hv|Hval].
  - apply big_facts.BitLen_gt_8 in Hv.
    destruct (Z.gtb_spec (big.BitLen v) 8); [done|lia].
  - destruct (big.BitLen v >? 8); [done|]. by rewrite Hval.
Qed.

Lemma Sender_accepted content v r s :
  Z.abs v < 256 -> ValidateSignatureValues (recovery_id v) r s = true ->
  Sender' (signed content v r s)
  = if (32 <? length (big.Bytes r))%nat || (64 <? length (big.Bytes s))%nat
    then Panic
    else match recovered content v r s with
         | Err err => Err err
         | Panic => Panic
         | Ok pub =>
             if invalid_public_key pub
             then Err (errors_New "invalid public key")
             else Ok ((Keccak256 (tail pub) mod 2 ^ 256) mod 2 ^ 160)
         end.
Proof.
  intros Hv Hval.
  unfold Sender, recoverPlain, signed. cbn [V R S]. fold (recovery_id v).
  destruct (Z.gtb_spec (big.BitLen v) 8) as [Hlen|_].
  { assert (big.BitLen v > 8) as G by lia.
    apply big_facts.BitLen_gt_8 in G. lia. }
  by rewrite Hval.
Qed.

(** Past the two guards [Sender] panics when R does not fit 32 bytes or S
    does not fit 64 bytes. *)
Lemma Sender_out_of_range content v r s :
  Z.abs v < 256 -> ValidateSignatureValues (recovery_id v) r s = true ->
  2 ^ 256 <= Z.abs r \/ 2 ^ 512 <= Z.abs s ->
  Sender' (signed content v r s) = Panic.
Proof.
  intros Hv Hval Hbig. rewrite Sender_accepted by done.
  destruct (_ || _) eqn:E; [done|]. apply Bytes_fit in E. lia.
Qed.

(** What [Sender] returns for a check with V, R and S, when the validation
    bounds R and S and the recovery returns. *)
Lemma Sender_outcome content v r s :
  (forall id r s, ValidateSignatureValues id r s = true ->
                  Z.abs r < 2 ^ 256 /\ Z.abs s < 2 ^ 256) ->
  (forall hash sig, Ecrecover hash sig <> Panic) ->
  (Sender' (signed content v r s) = Err ErrInvalidSig
   /\ (256 <= Z.abs v \/ ValidateSignatureValues (recovery_id v) r s = false))
  \/ (Z.abs v < 256 /\ ValidateSignatureValues (recovery_id v) r s = true
      /\ exists err, recovered content v r s = Err err
                     /\ Sender' (signed content v r s) = Err err)
  \/ (Z.abs v < 256 /\ ValidateSignatureValues (recovery_id v) r s = true
      /\ exists pub, recovered content v r s = Ok pub
                     /\ invalid_public_key pub = true
                     /\ Sender' (signed content v r s)
                        = Err (errors_New "invalid public key"))
  \/ (Z.abs v < 256 /\ ValidateSignatureValues (recovery_id v) r s = true
      /\ exists rest, recovered content v r s = Ok (x04 :: rest)
                      /\ Sender' (signed content v r s)
                         = Ok ((Keccak256 rest mod 2 ^ 256) mod 2 ^ 160)).
Proof.
  intros Hbound Hret.
  destruct (Z.le_gt_cases 256 (Z.abs v)) as [Hv|Hv].
  { left. split; [apply Sender_rejected|]; auto. }
  destruct (ValidateSignatureValues (recovery_id v) r s) eqn:Hval.
  2: { left. split; [apply Sender_rejected|]; auto. }
  right. rewrite Sender_accepted by (done || lia).
  destruct (Hbound _ _ _ Hval) as [Hr Hs].
  rewrite (proj2 (Bytes_fit r s)) by lia.
  destruct (recovered content v r s) as [pub|err|] eqn:Hrec.
  - destruct (invalid_public_key pub) eqn:Hpub.
    + right. left. split; [lia|]. split; [done|]. by exists pub.
    + right. right. apply invalid_public_key_false in Hpub as [rest ->].
      split; [lia|]. split; [done|]. by exists rest.
  - left. split; [lia|]. split; [done|]. by exists err.
  - by destruct (Hret _ _ Hrec).
Qed.

(** C8. For a check with V, R and S present, with [h] its [Hash()] and
    [sig] the 65 bytes made of R and S and the recovery id [byte(V - 27)],
    when the validation accepts only R and S in the range of 32 bytes and
    the key recovery returns:
    (1) [Sender()] returns an error exactly when V is longer than one byte,
        or [ValidateSignatureValues] rejects the recovery id with R and S,
        or the recovery of the key from [h] and [sig] fails, or the
        recovered key is empty or its first byte is not 4;
    (2) the error is of the signature class: [ErrInvalidSig] from the two
        guards, the error of the recovery as it is, or the error "invalid
        public key";
    (3) otherwise it returns the low 20 bytes of the Keccak-256 digest of
        the recovered key without its first byte;
    (4) the guard on V reads V before 27 is subtracted; with a validation
        that accepts the recovery ids 0 and 1 only, and V not negative,
        (1) holds as well with the guard read after the subtraction. *)
Theorem Sender_cases (content : Check) (v r s : Z) :
  (forall id r s, ValidateSignatureValues id r s = true ->
                  Z.abs r < 2 ^ 256 /\ Z.abs s < 2 ^ 256) ->
  (forall hash sig, Ecrecover hash sig <> Panic) ->
  ((exists e, Sender' (signed content v r s) = Err e)
   <-> 256 <= Z.abs v
       \/ ValidateSignatureValues (recovery_id v) r s = false
       \/ (exists err, recovered content v r s = Err err)
       \/ (exists pub, recovered content v r s = Ok pub
                       /\ invalid_public_key pub = true))
  /\ (forall e, Sender' (signed content v r s) = Err e ->
        e = ErrInvalidSig
        \/ recovered content v r s = Err e
        \/ e = errors_New "invalid public key")
  /\ ((~ exists e, Sender' (signed content v r s) = Err e) ->
      exists rest,
        recovered content v r s = Ok (x04 :: rest)
        /\ Sender' (signed content v r s)
           = Ok ((Keccak256 rest mod 2 ^ 256) mod 2 ^ 160))
  /\ ((forall id r s, ValidateSignatureValues id r s = true ->
                      id = 0 \/ id = 1) ->
      0 <= v ->
      ((exists e, Sender' (signed content v r s) = Err e)
       <-> 256 <= Z.abs (v - 27)
           \/ ValidateSignatureValues ((v - 27) mod 256) r s = false
           \/ (exists err, recovered content v r s = Err err)
           \/ (exists pub, recovered content v r s = Ok pub
                           /\ invalid_public_key pub = true))).
Proof.
  intros Hbound Hret.
  assert (H1 : (exists e, Sender' (signed content v r s) = Err e)
     <-> 256 <= Z.abs v
         \/ ValidateSignatureValues (recovery_id v) r s = false
         \/ (exists err, recovered content v r s = Err err)
         \/ (exists pub, recovered content v r s = Ok pub
                         /\ invalid_public_key pub = true)).
  { destruct (Sender_outcome content v r s Hbound Hret)
      as [(E & Hg)|[(Hv & Hval & err & Hrec & E)
         |[(Hv & Hval & pub & Hrec & Hpub & E)
          |(Hv & Hval & rest & Hrec & E)]]]; rewrite E.
    - split; [intros _; tauto|eauto].
    - split; [|eauto]. intros _. right. right. left. eauto.
    - split; [|eauto]. intros _. right. right. right. eauto.
    - split; [by intros [e ?]|].
      intros [?|[?|[[err H]|(pub & H & Hpub)]]]; [lia|congruence|congruence|].
      rewrite Hrec in H. injection H as <-. done. }
  split; [exact H1|]. split; [|split].
  - intros e.
    destruct (Sender_outcome content v r s Hbound Hret)
      as [(E & _)|[(_ & _ & err & Hrec & E)
         |[(_ & _ & pub & _ & _ & E)|(_ & _ & rest & _ & E)]]];
      rewrite E; intros [= <-]; auto.
  - intros Hno.
    destruct (Sender_outcome content v r s Hbound Hret)
      as [(E & _)|[(_ & _ & err & _ & E)
         |[(_ & _ & pub & _ & _ & E)|(_ & _ & rest & Hrec & E)]]];
      try (exfalso; apply Hno; eauto; fail).
    by exists rest.
  - intros Hid Hv. rewrite H1.
    destruct (Z.lt_ge_cases v 256) as [Hsmall|Hbig].
    + rewrite recovery_id_byte by lia. split.
      * intros [?|?]; [lia|by right].
      * intros [?|?]; [lia|by right].
    + split; [|intros _; left; lia].
      intros _. destruct (Z.le_gt_cases 256 (Z.abs (v - 27))); [by left|].
      right. left.
      destruct (ValidateSignatureValues ((v - 27) mod 256) r s) eqn:E;
        [|done].
      apply Hid in E. rewrite Z.mod_small in E by lia. lia.
Qed.

End Recovery.

(** An S of 33 bytes is in range for [sig[64-len(s):64]]: its first byte
    lands on the last byte of the half of R (here 2, overwritten by 1),
    and [Sender] goes on to the recovery. *)
Example encode_sig_long_S :
  encode_sig (big.Bytes 2) (big.Bytes (2 ^ 256)) 0
  = replicate 31 x00 ++ [x01] ++ replicate 32 x00 ++ [x00].
Proof. vm_compute. reflexivity. Qed.

Example Sender_long_S :
  Sender bitwise_items number_digest recover_from_sig (fun _ _ _ => true)
         (signed cheque 27 2 (2 ^ 256))
  <> Panic
  /\ Sender bitwise_items number_digest recover_from_sig (fun _ _ _ => true)
            (signed cheque 27 (2 ^ 256) 2)
     = Panic.
Proof. split; [vm_compute; discriminate|vm_compute; reflexivity]. Qed.

Lemma Sender_cases_witness :
  (exists e,
     Sender bitwise_items number_digest recover_from_sig validate_scalars
            (signed cheque 260 1 1) = Err e)
  /\ exists rest,
       recover_from_sig
         (Check_Hash bitwise_items number_digest (signed cheque 27 1 1))
         (encode_sig (big.Bytes 1) (big.Bytes 1) (recovery_id 27))
       = Ok (x04 :: rest)
       /\ Sender bitwise_items number_digest recover_from_sig validate_scalars
                 (signed cheque 27 1 1)
          = Ok ((number_digest rest mod 2 ^ 256) mod 2 ^ 160).
Proof.
  assert (Hbound : forall id r s, validate_scalars id r s = true ->
                     Z.abs r < 2 ^ 256 /\ Z.abs s < 2 ^ 256).
  { intros id r s H. unfold validate_scalars in H.
    repeat (apply andb_true_iff in H as [H ?]).
    repeat match goal with H : (_ <? _) = true |- _ => apply Z.ltb_lt in H end.
    lia. }
  assert (Hret : forall hash sig, recover_from_sig hash sig <> Panic).
  { intros hash sig. unfold recover_from_sig.
    destruct (sig !! 64%nat) as [id|]; [|done].
    by destruct (byte_to_Z id <? 2). }
  assert (Hid : forall id r s, validate_scalars id r s = true ->
                  id = 0 \/ id = 1).
  { intros id r s H. unfold validate_scalars in H.
    repeat (apply andb_true_iff in H as [H ?]).
    apply Z.leb_le in H.
    repeat match goal with H : (_ <? _) = true |- _ => apply Z.ltb_lt in H end.
    lia. }
  split.
  - destruct (Sender_cases bitwise_items number_digest recover_from_sig
                validate_scalars cheque 260 1 1 Hbound Hret)
      as (_ & _ & _ & H4).
    apply (H4 Hid); [lia|]. right. left. vm_compute. reflexivity.
  - destruct (Sender_cases bitwise_items number_digest recover_from_sig
                validate_scalars cheque 27 1 1 Hbound Hret)
      as (H1 & _ & H3 & _).
    apply H3. rewrite H1.
    intros [H|[H|[[err H]|(pub & H & Hpub)]]].
    + simpl in H. lia.
    + vm_compute in H. discriminate.
    + vm_compute in H. discriminate.
    + vm_compute in H. injection H as <-. vm_compute in Hpub. discriminate.
Defined.

(** *** [DecodeFromBytes] *)

(** The bytes of the example: the five fields of the content, the three
    of the signature (V = 27, R = S = 1), and the buffers made of them. *)
Definition cheque_content : list byte :=
  [x01; x82; x03; xe8;
   x8a; x58; x00; x00; x00; x00; x00; x00; x00; x00; x00;
   x64; x07].

Definition cheque_signature : list byte := [x1b; x01; x01].

Definition signed_buffer : list byte :=
  rlp_short_list (cheque_content ++ cheque_signature).

Definition unsigned_buffer : list byte := rlp_short_list cheque_content.

Definition overlong_buffer : list byte :=
  rlp_short_list (cheque_content ++ cheque_signature ++ [x05]).

Definition trailing_buffer : list byte := signed_buffer ++ [x00].

Section Decode.

Variable rlp_Decode : list byte -> Check * option error.

Abbreviation decoded buf := (fst (rlp_Decode buf)).

(** C10. [DecodeFromBytes] returns an error, the error "incorrect tx
    signature" with no check, if and only if one of V, R, S is nil in the
    check the decoder leaves; otherwise it returns that check and no
    error.  The error of the decoder is discarded: a decoder that leaves
    the same check gives the same result, whatever it reports.  So, with
    the decoder of the length-prefixed encoding: the encoding of a signed
    check is decoded without error and returned; the same list with a
    ninth element makes the decoder report an error after it has set the
    eight fields, and the check is returned with a nil error all the same;
    so it is for bytes after the list, when the decoder takes them for an
    error; and the encoding of the five fields of the content, without V,
    R and S, gives "incorrect tx signature". *)
Theorem DecodeFromBytes_spec (buf : list byte) :
  (DecodeFromBytes rlp_Decode buf = Err (errors_New "incorrect tx signature")
   <-> V (decoded buf) = None \/ R (decoded buf) = None
       \/ S (decoded buf) = None)
  /\ ((exists e, DecodeFromBytes rlp_Decode buf = Err e)
      <-> V (decoded buf) = None \/ R (decoded buf) = None
          \/ S (decoded buf) = None)
  /\ (DecodeFromBytes rlp_Decode buf = Ok (decoded buf)
      <-> V (decoded buf) <> None /\ R (decoded buf) <> None
          /\ S (decoded buf) <> None)
  /\ (forall rlp_Decode' : list byte -> Check * option error,
        fst (rlp_Decode' buf) = decoded buf ->
        DecodeFromBytes rlp_Decode' buf = DecodeFromBytes rlp_Decode buf)
  /\ (forall strict,
        rlp_Decode_Check strict signed_buffer = (signed cheque 27 1 1, None)
        /\ DecodeFromBytes (rlp_Decode_Check strict) signed_buffer
           = Ok (signed cheque 27 1 1))
  /\ (forall strict,
        snd (rlp_Decode_Check strict overlong_buffer)
        = Some (errors_New "rlp: input list has too many elements")
        /\ DecodeFromBytes (rlp_Decode_Check strict) overlong_buffer
           = Ok (signed cheque 27 1 1))
  /\ (snd (rlp_Decode_Check true trailing_buffer)
      = Some (errors_New "rlp: input contains more than one value")
      /\ DecodeFromBytes (rlp_Decode_Check true) trailing_buffer
         = Ok (signed cheque 27 1 1))
  /\ (forall strict,
        snd (rlp_Decode_Check strict unsigned_buffer)
        = Some (errors_New "rlp: too few elements")
        /\ DecodeFromBytes (rlp_Decode_Check strict) unsigned_buffer
           = Err (errors_New "incorrect tx signature")).
Proof.
  assert (Hgate :
    (DecodeFromBytes rlp_Decode buf = Err (errors_New "incorrect tx signature")
     <-> V (decoded buf) = None \/ R (decoded buf) = None
         \/ S (decoded buf) = None)
    /\ ((exists e, DecodeFromBytes rlp_Decode buf = Err e)
        <-> V (decoded buf) = None \/ R (decoded buf) = None
            \/ S (decoded buf) = None)
    /\ (DecodeFromBytes rlp_Decode buf = Ok (decoded buf)
        <-> V (decoded buf) <> None /\ R (decoded buf) <> None
            /\ S (decoded buf) <> None)).
  { unfold DecodeFromBytes.
    destruct (decide (S (decoded buf) = None)) as [HS|HS];
    destruct (decide (R (decoded buf) = None)) as [HR|HR];
    destruct (decide (V (decoded buf) = None)) as [HV|HV];
    rewrite ?(bool_decide_eq_true_2 _ HS), ?(bool_decide_eq_true_2 _ HR),
            ?(bool_decide_eq_true_2 _ HV), ?(bool_decide_eq_false_2 _ HS),
            ?(bool_decide_eq_false_2 _ HR), ?(bool_decide_eq_false_2 _ HV);
    simpl; (repeat split); try tauto; try (intros; discriminate); eauto;
    try (intros [e ?]; discriminate); try (by intros [?|[?|?]]). }
  destruct Hgate as (G1 & G2 & G3).
  split; [exact G1|]. split; [exact G2|]. split; [exact G3|].
  split.
  { intros rlp_Decode' H. unfold DecodeFromBytes. by rewrite H. }
  split; [intros []; split; vm_compute; reflexivity|].
  split; [intros []; split; vm_compute; reflexivity|].
  split; [split; vm_compute; reflexivity|].
  intros []; split; vm_compute; reflexivity.
Qed.

End Decode.

(** A stand-in decoder: it fills a check, signature included, and reports
    an error whenever the buffer is not empty. *)
Definition decode_then_complain (buf : list byte) : Check * option error :=
  (signed Check_zero 27 1 1,
   match buf with
   | [] => None
   | _ => Some (errors_New "rlp: input contains more than one value")
   end).

End check_facts.

(** ** Package [transaction]: the delegation transaction *)

Module transaction_facts.
Import types transaction.

Lemma GetBalance_with_balance s addr symbol amount addr' symbol' :
  GetBalance (with_balance s addr symbol amount) addr' symbol'
  = if decide ((addr, symbol) = (addr', symbol')) then amount
    else GetBalance s addr' symbol'.
Proof.
  unfold GetBalance, with_balance. simpl. rewrite lookup_insert.
  by case_decide.
Qed.

(** [SubBalance] subtracts from one balance and leaves the others. *)
Lemma GetBalance_SubBalance s addr symbol amount addr' symbol' :
  GetBalance (SubBalance s addr symbol amount) addr' symbol'
  = if decide ((addr, symbol) = (addr', symbol'))
    then GetBalance s addr symbol - amount
    else GetBalance s addr' symbol'.
Proof.
  unfold SubBalance, big.Sign. destruct (Z.eqb_spec (Z.sgn amount) 0) as [E|E].
  - case_decide as H; [|done]. injection H as <- <-. lia.
  - apply GetBalance_with_balance.
Qed.

Lemma SubBalance_frame s addr symbol amount :
  nonces (SubBalance s addr symbol amount) = nonces s
  /\ coins (SubBalance s addr symbol amount) = coins s
  /\ candidates (SubBalance s addr symbol amount) = candidates s
  /\ delegations (SubBalance s addr symbol amount) = delegations s.
Proof. unfold SubBalance. by destruct (big.Sign amount =? 0). Qed.

Section RunFacts.

Variable CommissionMultiplier : Z.
Variable BaseCoin : CoinSymbol.
Variable CalculateSaleAmount : Z -> Z -> Z -> Z -> Z.

Abbreviation Run' := (Run CommissionMultiplier BaseCoin CalculateSaleAmount).
Abbreviation commission' := (commission CommissionMultiplier BaseCoin CalculateSaleAmount).
Abbreviation commissionInBaseCoin' := (commissionInBaseCoin CommissionMultiplier).

(** The state and the reward pool that a committed delegation leaves. *)
Definition committed (data : DelegateData) (sender : Address)
  (tx : Transaction) (context : StateDB) (commission : Z) : StateDB :=
  SetNonce
    (Delegate
       (SubBalance
          (SubBalance context sender (GasCoin tx) commission)
          sender (Coin data) (Stake data))
       sender (PubKey data) (Coin data) (Stake data))
    sender (Nonce tx).

(** [Run_checked] never changes anything unless it returns [OK] with
    [isCheck] false, and its response does not depend on [isCheck]. *)
Lemma Run_checked_gate data sender tx context isCheck rewardPool cib com :
  response (Run_checked data sender tx context isCheck rewardPool cib com)
  = response (Run_checked data sender tx context true rewardPool cib com)
  /\ (isCheck = true \/
      Code (response (Run_checked data sender tx context isCheck
                                   rewardPool cib com)) <> OK ->
      state_after (Run_checked data sender tx context isCheck rewardPool cib com)
      = context
      /\ rewardPool_after (Run_checked data sender tx context isCheck
                                       rewardPool cib com)
         = rewardPool)
  /\ (isCheck = false ->
      Code (response (Run_checked data sender tx context isCheck
                                   rewardPool cib com)) = OK ->
      state_after (Run_checked data sender tx context isCheck rewardPool cib com)
      = committed data sender tx context com
      /\ rewardPool_after (Run_checked data sender tx context isCheck
                                       rewardPool cib com)
         = rewardPool + cib).
Proof.
  unfold Run_checked. destruct isCheck; simpl;
  repeat match goal with
         | |- context [if ?b then _ else _] => destruct b; simpl
         end;
  repeat split; try done; try (by intros [?|?]);
  match goal with H : _ \/ _ |- _ => by destruct H end.
Qed.

(** [Run] returns: the nil dereference is excluded by the coin check. *)
Lemma Run_returns data sender tx context isCheck rewardPool currentBlock :
  exists out,
    Run' data sender tx context isCheck rewardPool currentBlock = Some out.
Proof.
  unfold Run, CoinExists, GetStateCoin.
  destruct (bool_decide (is_Some (coins context !! GasCoin tx))) eqn:E; simpl;
    [|eauto].
  apply bool_decide_eq_true in E as [coin Hc]. rewrite Hc.
  repeat match goal with
         | |- context [if ?b then _ else _] => destruct b; simpl
         end; eauto.
Qed.

(** [Run] up to the balance checks. *)
Lemma Run_reaches_checks data sender tx context isCheck rewardPool
  currentBlock com :
  CoinExists context (GasCoin tx) = true ->
  0 < Stake data ->
  commission' tx context = Some com ->
  Run' data sender tx context isCheck rewardPool currentBlock
  = Some (Run_checked data sender tx context isCheck rewardPool
                      (commissionInBaseCoin' tx) com).
Proof.
  intros Hex Hst Hcom. unfold Run, commission in *. rewrite Hex. simpl.
  destruct (Z.ltb_spec (big.Cmp (Stake data) Big0) 1) as [H|_].
  { apply -> big_facts.Cmp_lt1 in H. unfold Big0 in H. lia. }
  destruct (bool_decide (GasCoin tx <> BaseCoin)).
  - destruct (GetStateCoin context (GasCoin tx)) as [coin|]; [|done].
    destruct (big.Cmp (ReserveBalance coin) (commissionInBaseCoin' tx) <? 0);
      [done|]. by injection Hcom as <-.
  - by injection Hcom as <-.
Qed.

(** When [Run] returns before the balance checks, it returns a failure and
    has touched nothing. *)
Lemma Run_returns_early data sender tx context isCheck rewardPool
  currentBlock out :
  CoinExists context (GasCoin tx) = false \/ Stake data <= 0
  \/ commission' tx context = None ->
  Run' data sender tx context isCheck rewardPool currentBlock = Some out ->
  Code (response out) <> OK /\ state_after out = context
  /\ rewardPool_after out = rewardPool
  /\ Run' data sender tx context true rewardPool currentBlock = Some out.
Proof.
  unfold Run, commission. intros Hearly.
  destruct (CoinExists context (GasCoin tx)); simpl.
  2: { by intros [= <-]. }
  destruct (Z.ltb_spec (big.Cmp (Stake data) Big0) 1) as [H|H].
  { by intros [= <-]. }
  apply Z.le_ngt in H. rewrite big_facts.Cmp_lt1 in H. unfold Big0 in H.
  destruct Hearly as [?|[?|Hcom]]; [done|lia|]. revert Hcom.
  destruct (bool_decide (GasCoin tx <> BaseCoin)); [|done].
  destruct (GetStateCoin context (GasCoin tx)) as [coin|]; [|done].
  destruct (big.Cmp (ReserveBalance coin) (commissionInBaseCoin' tx) <? 0);
    [|done].
  by intros _ [= <-].
Qed.

(** C1. The response of [Run] does not depend on [isCheck]; with [isCheck]
    true nothing is changed; with [isCheck] false nothing is changed unless
    the code returned is [OK]; and when [Run] with [isCheck] false returns
    [OK], the same call with [isCheck] true returns the same response and
    changes nothing, while the call itself has credited the reward pool
    with the base-unit commission, debited the sender's gas-coin balance by
    the commission and the sender's stake-coin balance by the stake (one
    balance debited by both when the two coins are one), left every other
    balance as it was, recorded the delegation and set the sender's nonce
    to the nonce of the transaction. *)
Theorem Run_mutation_gate data sender tx context rewardPool currentBlock :
  option_map response
    (Run' data sender tx context true rewardPool currentBlock)
  = option_map response
      (Run' data sender tx context false rewardPool currentBlock)
  /\ (forall out,
        Run' data sender tx context true rewardPool currentBlock = Some out ->
        state_after out = context /\ rewardPool_after out = rewardPool)
  /\ (forall out,
        Run' data sender tx context false rewardPool currentBlock = Some out ->
        Code (response out) <> OK ->
        state_after out = context /\ rewardPool_after out = rewardPool)
  /\ (forall out,
        Run' data sender tx context false rewardPool currentBlock = Some out ->
        Code (response out) = OK ->
        Run' data sender tx context true rewardPool currentBlock
        = Some (mkOutcome (response out) context rewardPool)
        /\ response out = mkResponse OK (Gas tx) (Gas tx) Log_empty
        /\ exists com,
             commission' tx context = Some com
             /\ rewardPool_after out = rewardPool + commissionInBaseCoin' tx
             /\ state_after out = committed data sender tx context com
             /\ (forall addr symbol,
                   GetBalance (state_after out) addr symbol
                   = GetBalance context addr symbol
                     - (if decide ((sender, GasCoin tx) = (addr, symbol))
                        then com else 0)
                     - (if decide ((sender, Coin data) = (addr, symbol))
                        then Stake data else 0))
             /\ nonces (state_after out)
                = <[sender := Nonce tx]> (nonces context)
             /\ delegations (state_after out)
                = delegations context
                  ++ [mkDelegation sender (PubKey data) (Coin data)
                                   (Stake data)]
             /\ coins (state_after out) = coins context
             /\ candidates (state_after out) = candidates context).
Proof.
  destruct (CoinExists context (GasCoin tx)) eqn:Hex;
    [destruct (Z.lt_ge_cases 0 (Stake data)) as [Hst|Hst];
     [destruct (commission' tx context) as [com|] eqn:Hcom|]|].
  2, 3, 4:
    assert (Hearly : CoinExists context (GasCoin tx) = false
                     \/ Stake data <= 0 \/ commission' tx context = None)
      by (rewrite ?Hex, ?Hcom; auto);
    destruct (Run_returns data sender tx context false rewardPool
                currentBlock) as [out1 Hout1];
    destruct (Run_returns_early _ _ _ _ _ _ _ _ Hearly Hout1)
      as (Hc1 & Hs1 & Hp1 & Ht1);
    rewrite Ht1, Hout1;
    (split; [done|]); (split; [by intros ? [= <-]|]);
    (split; [by intros ? [= <-]|]); by intros ? [= <-] ?.
  rewrite !(Run_reaches_checks _ _ _ _ _ _ _ com Hex Hst Hcom).
  destruct (Run_checked_gate data sender tx context false rewardPool
              (commissionInBaseCoin' tx) com) as (G1 & G2 & G3).
  destruct (Run_checked_gate data sender tx context true rewardPool
              (commissionInBaseCoin' tx) com) as (_ & T2 & _).
  specialize (T2 (or_introl eq_refl)) as [T2 T3].
  split; [simpl; by rewrite G1|].
  split; [by intros ? [= <-]|].
  split; [intros ? [= <-] Hc; by apply G2; right|].
  intros out [= <-] Hc. specialize (G3 eq_refl Hc) as [G3 G4].
  split.
  { f_equal. rewrite G1.
    by destruct (Run_checked data sender tx context true rewardPool _ com);
      simpl in *; subst. }
  split.
  { revert Hc. unfold Run_checked.
    repeat match goal with
           | |- context [if ?b then _ else _] => destruct b; simpl
           end; done. }
  exists com. split; [done|]. split; [done|]. split; [done|].
  rewrite G3. unfold committed. split.
  { intros addr symbol. unfold SetNonce, Delegate, GetBalance at 1. simpl.
    fold (GetBalance
            (SubBalance (SubBalance context sender (GasCoin tx) com)
                        sender (Coin data) (Stake data)) addr symbol).
    rewrite !GetBalance_SubBalance.
    repeat case_decide; simplify_eq; try lia; exfalso; congruence. }
  destruct (SubBalance_frame context sender (GasCoin tx) com)
    as (F1 & F2 & F3 & F4).
  destruct (SubBalance_frame (SubBalance context sender (GasCoin tx) com)
                             sender (Coin data) (Stake data))
    as (E1 & E2 & E3 & E4).
  simpl. by rewrite E1, E2, E3, E4, F1, F2, F3, F4.
Qed.

(** C3. [Run] checks the existence of one coin, the gas coin: it returns
    [CoinNotExists], and changes nothing, whenever the gas coin does not
    exist, whatever the other inputs are; and when the gas coin exists it
    never returns [CoinNotExists], whether the stake coin exists or not. *)
Theorem Run_CoinNotExists data sender tx context isCheck rewardPool
  currentBlock :
  (CoinExists context (GasCoin tx) = false ->
   Run' data sender tx context isCheck rewardPool currentBlock
   = Some (mkOutcome
             (mkResponse CoinNotExists 0 0 (Log_CoinNotExists (GasCoin tx)))
             context rewardPool))
  /\ (CoinExists context (GasCoin tx) = true ->
      forall out,
        Run' data sender tx context isCheck rewardPool currentBlock = Some out ->
        Code (response out) <> CoinNotExists).
Proof.
  unfold Run. split; intros ->; simpl; [done|].
  intros out.
  repeat match goal with
         | |- context [if ?b then _ else _] => destruct b; simpl
         | |- context [match ?o with Some _ => _ | None => _ end] =>
             destruct o; simpl
         end;
    try (by intros [= <-]); try done.
  all: intros [= <-]; unfold Run_checked;
    repeat match goal with
           | |- context [if ?b then _ else _] => destruct b; simpl
           end; done.
Qed.

(** C9. When the gas coin exists and is the stake coin, the commission is
    defined (the reserve check passes), and the sender's balance in that
    coin covers the commission and covers the stake but not their sum,
    [Run] returns [InsufficientFunds], naming the sum, and changes nothing,
    whatever [isCheck] is. *)
Theorem Run_combined_cost data sender tx context isCheck rewardPool
  currentBlock com :
  CoinExists context (GasCoin tx) = true ->
  commission' tx context = Some com ->
  Coin data = GasCoin tx ->
  com <= GetBalance context sender (GasCoin tx) ->
  Stake data <= GetBalance context sender (GasCoin tx) ->
  GetBalance context sender (GasCoin tx) < Stake data + com ->
  Run' data sender tx context isCheck rewardPool currentBlock
  = Some (mkOutcome
            (mkResponse InsufficientFunds 0 0
               (Log_InsufficientFunds sender (0 + Stake data + com)
                                      (GasCoin tx)))
            context rewardPool).
Proof.
  intros Hex Hcom Hcoin Hc Hs Hsum.
  assert (0 < Stake data) as Hst by lia.
  rewrite (Run_reaches_checks _ _ _ _ _ _ _ com Hex Hst Hcom).
  f_equal. unfold Run_checked. rewrite Hcoin.
  destruct (Z.ltb_spec (big.Cmp (GetBalance context sender (GasCoin tx)) com) 0)
    as [H|_]; [apply -> big_facts.Cmp_lt in H; lia|].
  destruct (Z.ltb_spec (big.Cmp (GetBalance context sender (GasCoin tx))
                                (Stake data)) 0)
    as [H|_]; [apply -> big_facts.Cmp_lt in H; lia|].
  rewrite bool_decide_eq_true_2 by done. simpl.
  destruct (Z.ltb_spec (big.Cmp (GetBalance context sender (GasCoin tx))
                                (0 + Stake data + com)) 0)
    as [_|H]; [done|].
  exfalso. apply Z.le_ngt in H. apply H, big_facts.Cmp_lt. lia.
Qed.

End RunFacts.

(** *** The delegation of the specification's example

    The sender holds 1000 of the gas coin and 500 of the stake coin, stakes
    400, and the commission is 50 of the gas coin (the base coin, at gas
    price 1, 50 gas and multiplier 1). *)

Definition MNT : CoinSymbol := coin_of_bytes [x4d; x4e; x54].
Definition STK : CoinSymbol := coin_of_bytes [x53; x54; x4b].
Definition NOPE : CoinSymbol := coin_of_bytes [x4e; x4f; x50; x45].

Definition alice : Address := 1.
Definition candidate_key : list byte := [x01; x02].

Definition example_state : StateDB :=
  mkStateDB (<[(alice, MNT) := 1000]> (<[(alice, STK) := 500]> ∅))
            ∅
            (<[MNT := mkStateCoin 0 0 0]>
               (<[STK := mkStateCoin 10000 10000 50]> ∅))
            [candidate_key]
            [].

Definition example_tx : Transaction := mkTransaction 1 1 MNT 50.

Definition example_data : DelegateData := mkDelegateData candidate_key STK 400.

(** A stand-in for the conversion formula: one for one. *)
Definition sale_at_par (volume reserve crr amount : Z) : Z := amount.

Abbreviation example_Run := (Run 1 MNT sale_at_par).

Example Run_example_commit :
  exists out,
    example_Run example_data alice example_tx example_state false 0 100
    = Some out
    /\ response out = mkResponse OK 50 50 Log_empty
    /\ GetBalance (state_after out) alice MNT = 950
    /\ GetBalance (state_after out) alice STK = 100
    /\ rewardPool_after out = 50
    /\ GetNonce (state_after out) alice = 1
    /\ delegations (state_after out)
       = [mkDelegation alice candidate_key STK 400].
Proof. eexists. split; [reflexivity|]. vm_compute. tauto. Qed.

Example Run_example_check :
  example_Run example_data alice example_tx example_state true 0 100
  = Some (mkOutcome (mkResponse OK 50 50 Log_empty) example_state 0).
Proof. vm_compute. reflexivity. Qed.

Example Run_example_zero_stake isCheck :
  example_Run (mkDelegateData candidate_key STK 0) alice example_tx
              example_state isCheck 0 100
  = Some (mkOutcome
            (mkResponse StakeShouldBePositive 0 0 Log_StakeShouldBePositive)
            example_state 0).
Proof. destruct isCheck; vm_compute; reflexivity. Qed.

Lemma Run_mutation_gate_witness :
  example_Run example_data alice example_tx example_state true 0 100
  = Some (mkOutcome (mkResponse OK 50 50 Log_empty) example_state 0)
  /\ exists com,
       commission 1 MNT sale_at_par example_tx example_state = Some com
       /\ 0 + commissionInBaseCoin 1 example_tx = 50
       /\ committed example_data alice example_tx example_state 50
          = committed example_data alice example_tx example_state com.
Proof.
  destruct (Run_mutation_gate 1 MNT sale_at_par example_data alice example_tx
              example_state 0 100) as (_ & _ & _ & H).
  specialize (H (mkOutcome (mkResponse OK 50 50 Log_empty)
                           (committed example_data alice example_tx
                                      example_state 50) 50)).
  destruct H as (H1 & _ & com & H2 & H3 & H4 & _).
  - vm_compute. reflexivity.
  - reflexivity.
  - split; [exact H1|]. exists com. split; [exact H2|].
    split; [symmetry; exact H3|exact H4].
Defined.

(** C3, as stated, fails: the gas coin exists, the stake coin [NOPE] does
    not, and [Run] does not return [CoinNotExists]: it goes on to the
    balance checks and returns [InsufficientFunds]. *)
Lemma Run_missing_stake_coin :
  CoinExists example_state MNT = true
  /\ CoinExists example_state NOPE = false
  /\ example_Run (mkDelegateData candidate_key NOPE 400) alice example_tx
                 example_state false 0 100
     = Some (mkOutcome
               (mkResponse InsufficientFunds 0 0
                  (Log_InsufficientFunds alice 400 NOPE))
               example_state 0).
Proof. repeat split; vm_compute; reflexivity. Qed.

Lemma Run_CoinNotExists_witness :
  example_Run example_data alice (mkTransaction 1 1 NOPE 50) example_state
              false 0 100
  = Some (mkOutcome
            (mkResponse CoinNotExists 0 0 (Log_CoinNotExists NOPE))
            example_state 0).
Proof.
  apply (Run_CoinNotExists 1 MNT sale_at_par example_data alice
           (mkTransaction 1 1 NOPE 50) example_state false 0 100).
  vm_compute. reflexivity.
Defined.

(** The sender holds 100 of the base coin, stakes 80 of it and owes a
    commission of 50. *)
Definition tight_state : StateDB :=
  mkStateDB (<[(alice, MNT) := 100]> ∅) ∅ (<[MNT := mkStateCoin 0 0 0]> ∅)
            [candidate_key] [].

Lemma Run_combined_cost_witness :
  example_Run (mkDelegateData candidate_key MNT 80) alice example_tx
              tight_state false 0 100
  = Some (mkOutcome
            (mkResponse InsufficientFunds 0 0
               (Log_InsufficientFunds alice (0 + 80 + 50) MNT))
            tight_state 0).
Proof.
  apply (Run_combined_cost 1 MNT sale_at_par
           (mkDelegateData candidate_key MNT 80) alice example_tx tight_state
           false 0 100 50).
  - vm_compute. reflexivity.
  - vm_compute. reflexivity.
  - reflexivity.
  - vm_compute. discriminate.
  - vm_compute. discriminate.
  - vm_compute. reflexivity.
Defined.

End transaction_facts.

(** * Further properties *)

(** ** The balance ledger: [getCoins], [EncodeRLP], [DecodeRLP] *)

Module ledger_props.
Import types state state_facts.

Lemma sorted_by_strict (l : list CoinSymbol) :
  sorted_by getCoins_less l -> NoDup l ->
  StronglySorted (fun a b => coin_value a > coin_value b) l.
Proof.
  unfold sorted_by. induction 1 as [|x l Hs IH Hall]; intros Hnd.
  - constructor.
  - apply NoDup_cons in Hnd as [Hx Hnd]. constructor; [by apply IH|].
    rewrite Forall_forall in Hall |- *. intros y Hy.
    specialize (Hall y Hy). simpl in Hall. apply getCoins_less_false in Hall.
    destruct (Z.eq_dec (coin_value x) (coin_value y)) as [E|E]; [|lia].
    apply coin_value_inj in E. by subst.
Qed.

Lemma getCoins_run mem b :
  getCoins b mem = (getCoins_range (map_to_list (contents mem b)), mem).
Proof. unfold getCoins, contents. by run_M. Qed.

(** X1. [getCoins] returns exactly the coins that the map holds with an
    amount above zero, each once, in strictly descending order of the
    numbers their bytes spell, and it leaves the memory as it is. *)
Theorem getCoins_spec mem b :
  (forall k, k ∈ eval (getCoins b) mem
             <-> exists v, contents mem b !! k = Some v /\ 0 < v)
  /\ NoDup (eval (getCoins b) mem)
  /\ StronglySorted (fun x y => coin_value x > coin_value y)
                    (eval (getCoins b) mem)
  /\ exec (getCoins b) mem = mem.
Proof.
  unfold eval, exec. rewrite getCoins_run. simpl.
  split; [apply elem_of_getCoins_range|].
  split; [apply NoDup_getCoins_range|].
  split; [|done].
  apply sorted_by_strict; [apply getCoins_range_sorted|].
  apply NoDup_getCoins_range.
Qed.

(** X2. The order in which [range] visits the entries of the map, which Go
    does not fix, has no bearing on the result of [getCoins]: any visit of
    the same entries gives the same slice. *)
Theorem getCoins_visit_order mem b visit :
  visit ≡ₚ map_to_list (contents mem b) ->
  getCoins_range visit = eval (getCoins b) mem.
Proof.
  intros Hp. unfold eval. rewrite getCoins_run. simpl.
  by apply getCoins_range_deterministic.
Qed.

Lemma getCoins_visit_order_witness :
  getCoins_range (reverse (map_to_list (contents ledger_mem ledger)))
  = eval (getCoins ledger) ledger_mem.
Proof.
  apply (getCoins_visit_order ledger_mem ledger).
  apply reverse_Permutation.
Defined.

(** Balances with the same positive entries give the same entries to the
    encoder. *)
Lemma EncodeRLP_balances_same_positive mem1 b1 mem2 b2 :
  (forall c v, 0 < v ->
     (contents mem1 b1 !! c = Some v <-> contents mem2 b2 !! c = Some v)) ->
  eval (EncodeRLP_balances b1) mem1 = eval (EncodeRLP_balances b2) mem2.
Proof.
  intros H.
  assert (Hk : getCoins_range (map_to_list (contents mem1 b1))
               = getCoins_range (map_to_list (contents mem2 b2))).
  { assert (TR : Transitive (fun a b => getCoins_less b a = false)).
    { intros a b c H1 H2. by apply (getCoins_less_negtrans a b c). }
    assert (AS : AntiSymm (=) (fun a b => getCoins_less b a = false)).
    { intros a b H1 H2. apply getCoins_less_false in H1, H2.
      apply coin_value_inj. lia. }
    apply (StronglySorted_unique (fun a b => getCoins_less b a = false));
      try apply getCoins_range_sorted.
    apply NoDup_Permutation; try apply NoDup_getCoins_range.
    intros k. rewrite !elem_of_getCoins_range.
    split; intros (v & Hv & Hpos); exists v; (split; [by apply H|done]). }
  unfold eval. rewrite !EncodeRLP_balances_run. simpl. rewrite <- Hk.
  apply map_ext_in. intros k Hk'.
  apply list_elem_of_In, elem_of_getCoins_range in Hk' as (v & Hv & Hpos).
  unfold map_index. rewrite Hv. by rewrite (proj1 (H k v Hpos) Hv).
Qed.

(** X3. The entries that [EncodeRLP] hands to the encoder are a canonical
    form of the positive part of the map: two [Balances] values, in
    whatever memories, give the same list of entries if and only if they
    hold the same entries with an amount above zero.  Entries with a zero
    or negative amount, absent keys and the layout of the map make no
    difference. *)
Theorem EncodeRLP_canonical mem1 b1 mem2 b2 :
  eval (EncodeRLP_balances b1) mem1 = eval (EncodeRLP_balances b2) mem2
  <-> forall c v, 0 < v ->
        (contents mem1 b1 !! c = Some v <-> contents mem2 b2 !! c = Some v).
Proof.
  split.
  - intros E c v Hv.
    pose proof (elem_of_EncodeRLP_balances mem1 b1 c v) as H1.
    pose proof (elem_of_EncodeRLP_balances mem2 b2 c v) as H2.
    rewrite E in H1. tauto.
  - apply EncodeRLP_balances_same_positive.
Qed.

(** *** [DecodeRLP] *)

Lemma assign_entries_last balances pre e post m :
  balances = pre ++ e :: post -> Coin e ∉ Coin <$> post ->
  assign_entries balances m !! Coin e = Some (Amount e).
Proof.
  intros -> Hpost. unfold assign_entries. rewrite fold_left_app. simpl.
  fold (assign_entries pre m).
  fold (assign_entries post (<[Coin e := Amount e]> (assign_entries pre m))).
  rewrite assign_entries_not_in by done. apply lookup_insert_eq.
Qed.

Lemma DecodeRLP_loop_length l balances mem :
  length (maps (exec (DecodeRLP_loop (Some l) balances) mem))
  = length (maps mem).
Proof.
  revert mem. induction balances as [|e balances IH]; intros mem; [done|].
  change (exec (DecodeRLP_loop (Some l) (e :: balances)) mem)
    with (exec (DecodeRLP_loop (Some l) balances)
               (exec (map_assign l (Coin e) (Amount e)) mem)).
  rewrite IH. unfold exec, map_assign. cbn [snd maps]. apply length_alter.
Qed.

(** A [Balances] value whose map reference, if it has one, is a map of the
    memory. *)
Definition valid (mem : memory) (b : Balances) : Prop :=
  match Data b with
  | Some l => (l < length (maps mem))%nat
  | None => True
  end.

Section Decoding.

Variable rlp_Decode : list byte -> result (list Balance).

(** What a successful [DecodeRLP] does, for any receiver. *)
Lemma Balances_DecodeRLP_ok b w balances mem :
  rlp_Decode w = Ok balances -> valid mem b ->
  exists b' mem',
    Balances_DecodeRLP rlp_Decode b w mem = (b', Ok tt, mem')
    /\ Data b' = match Data b with
                 | Some l => Some l
                 | None => Some (length (maps mem))
                 end
    /\ contents mem' b' = assign_entries balances (contents mem b)
    /\ trace mem' = trace mem.
Proof.
  intros Hdec Hv. destruct b as [[l|]].
  - unfold valid in Hv. simpl in Hv.
    destruct (lookup_lt_is_Some_2 _ _ Hv) as [m0 Hm0].
    exists (mkBalances (Some l)),
           (exec (DecodeRLP_loop (Some l) balances) mem).
    destruct (DecodeRLP_loop_run l balances mem) as [Ht Hm].
    split; [|split; [done|split; [|done]]].
    + unfold Balances_DecodeRLP, mbind, M_bind, bind, mret, M_ret, ret.
      cbn [Data]. rewrite Hdec. unfold exec.
      by destruct (DecodeRLP_loop (Some l) balances mem) as [[] mem'].
    + unfold contents, eval, map_read. cbn [fst Data].
      rewrite Hm, decide_True, Hm0 by done. done.
  - destruct (Balances_DecodeRLP_fresh rlp_Decode w balances mem Hdec)
      as (b' & mem' & Hrun & Hc & Ht & _).
    exists b', mem'. split; [done|]. split.
    + revert Hrun.
      unfold Balances_DecodeRLP, mbind, M_bind, bind, make_map, mret, M_ret, ret.
      cbn [Data]. rewrite Hdec.
      destruct (DecodeRLP_loop _ _ _) as [[] mem'']. by intros [= <- _].
    + split; [|done]. rewrite Hc. unfold contents, eval, map_read. done.
Qed.

(** X4. [DecodeRLP] does not ask for sorted or duplicate-free input: when a
    coin occurs more than once among the decoded entries the last
    occurrence wins, and a coin that does not occur keeps the amount the
    receiver had for it. *)
Theorem DecodeRLP_last_write_wins b w balances mem :
  rlp_Decode w = Ok balances -> valid mem b ->
  exists b' mem',
    Balances_DecodeRLP rlp_Decode b w mem = (b', Ok tt, mem')
    /\ (forall pre e post,
          balances = pre ++ e :: post -> Coin e ∉ Coin <$> post ->
          contents mem' b' !! Coin e = Some (Amount e))
    /\ (forall c, c ∉ Coin <$> balances ->
          contents mem' b' !! c = contents mem b !! c).
Proof.
  intros Hdec Hv.
  destruct (Balances_DecodeRLP_ok b w balances mem Hdec Hv)
    as (b' & mem' & Hrun & _ & Hc & _).
  exists b', mem'. split; [done|]. rewrite Hc. split.
  - intros pre e post. apply assign_entries_last.
  - intros c. apply assign_entries_not_in.
Qed.

(** X5. [DecodeRLP] on a receiver that already has a map does not start
    from an empty map: it writes into the map the receiver refers to (the
    reference stays the same, so every holder of that map sees the
    result), and no other map of the memory and no event is touched. *)
Theorem DecodeRLP_in_place l w balances mem :
  rlp_Decode w = Ok balances -> (l < length (maps mem))%nat ->
  exists mem',
    Balances_DecodeRLP rlp_Decode (mkBalances (Some l)) w mem
    = (mkBalances (Some l), Ok tt, mem')
    /\ maps mem' !! l = assign_entries balances <$> maps mem !! l
    /\ (forall l', l' <> l -> maps mem' !! l' = maps mem !! l')
    /\ length (maps mem') = length (maps mem)
    /\ trace mem' = trace mem.
Proof.
  intros Hdec Hl.
  exists (exec (DecodeRLP_loop (Some l) balances) mem).
  destruct (DecodeRLP_loop_run l balances mem) as [Ht Hm].
  split; [|split; [|split; [|split; [|done]]]].
  - unfold Balances_DecodeRLP, mbind, M_bind, bind, mret, M_ret, ret.
    cbn [Data]. rewrite Hdec. unfold exec.
    by destruct (DecodeRLP_loop (Some l) balances mem) as [[] mem'].
  - by rewrite Hm, decide_True.
  - intros l' Hne. by rewrite Hm, decide_False.
  - apply DecodeRLP_loop_length.
Qed.

(** X6. When the decoder fails, [DecodeRLP] returns its error and stores no
    entry; but a receiver without a map has been given an empty one by
    then, so the receiver is changed even though the call failed. *)
Theorem DecodeRLP_error b w err mem :
  rlp_Decode w = Err err ->
  exists b' mem',
    Balances_DecodeRLP rlp_Decode b w mem = (b', Err err, mem')
    /\ trace mem' = trace mem
    /\ (forall l, (l < length (maps mem))%nat -> maps mem' !! l = maps mem !! l)
    /\ match Data b with
       | Some l => b' = b /\ mem' = mem
       | None => Data b' = Some (length (maps mem))
                 /\ maps mem' = maps mem ++ [∅]
       end.
Proof.
  intros Hdec.
  unfold Balances_DecodeRLP, mbind, M_bind, bind, make_map, mret, M_ret, ret.
  rewrite Hdec. destruct b as [[l|]]; simpl.
  - by exists (mkBalances (Some l)), mem.
  - eexists _, _. split; [done|]. simpl. split; [done|].
    split; [|done]. intros l Hl. by rewrite lookup_app_l.
Qed.

End Decoding.

(** A list of entries in which the coin [AAA] occurs twice, and the bytes
    the bitwise codec writes for it. *)
Definition repeated_entries : list Balance :=
  [mkBalance coin_A 1; mkBalance coin_B 2; mkBalance coin_A 3].

Definition repeated_bytes : list byte :=
  bits_of_positive (encode repeated_entries).

Lemma bitwise_Decode_repeated :
  bitwise_Decode repeated_bytes = Ok repeated_entries.
Proof.
  unfold bitwise_Decode, repeated_bytes.
  by rewrite positive_of_bits_of_positive, decode_encode.
Qed.

Lemma DecodeRLP_last_write_wins_witness :
  exists b' mem',
    Balances_DecodeRLP bitwise_Decode ledger repeated_bytes ledger_mem
    = (b', Ok tt, mem')
    /\ (forall pre e post,
          repeated_entries = pre ++ e :: post -> Coin e ∉ Coin <$> post ->
          contents mem' b' !! Coin e = Some (Amount e))
    /\ (forall c, c ∉ Coin <$> repeated_entries ->
          contents mem' b' !! c = contents ledger_mem ledger !! c).
Proof.
  apply (DecodeRLP_last_write_wins bitwise_Decode ledger repeated_bytes
           repeated_entries ledger_mem).
  - apply bitwise_Decode_repeated.
  - unfold valid. simpl. lia.
Defined.

Lemma DecodeRLP_in_place_witness :
  exists mem',
    Balances_DecodeRLP bitwise_Decode (mkBalances (Some 0%nat)) repeated_bytes
                       ledger_mem
    = (mkBalances (Some 0%nat), Ok tt, mem')
    /\ maps mem' !! 0%nat
       = assign_entries repeated_entries <$> maps ledger_mem !! 0%nat
    /\ (forall l', l' <> 0%nat -> maps mem' !! l' = maps ledger_mem !! l')
    /\ length (maps mem') = length (maps ledger_mem)
    /\ trace mem' = trace ledger_mem.
Proof.
  apply (DecodeRLP_in_place bitwise_Decode 0%nat repeated_bytes
           repeated_entries ledger_mem).
  - apply bitwise_Decode_repeated.
  - simpl. lia.
Defined.

(** A decoder that rejects every input. *)
Definition reject_all (w : list byte) : result (list Balance) :=
  Err (errors_New "rlp: expected input list").

Lemma DecodeRLP_error_witness :
  exists b' mem',
    Balances_DecodeRLP reject_all (mkBalances None) [] ledger_mem
    = (b', Err (errors_New "rlp: expected input list"), mem')
    /\ trace mem' = trace ledger_mem
    /\ (forall l, (l < length (maps ledger_mem))%nat ->
          maps mem' !! l = maps ledger_mem !! l)
    /\ Data b' = Some (length (maps ledger_mem))
       /\ maps mem' = maps ledger_mem ++ [∅].
Proof.
  apply (DecodeRLP_error reject_all (mkBalances None) []
           (errors_New "rlp: expected input list") ledger_mem).
  reflexivity.
Defined.

End ledger_props.

(** ** The state object: balances, nonce, flags and events *)

Module object_props.
Import types state state_facts stateObject_facts ledger_props.

(** The balance that [Balance(coinSymbol)] reads. *)
Definition balance (mem : memory) (s : stateObject) (c : CoinSymbol) : Z :=
  eval (stateObject_Balance s c) mem.

(** The object's map reference, if it has one, is a map of the memory:
    so it is for every object made by [newObject]. *)
Definition has_map (mem : memory) (s : stateObject) : Prop :=
  valid mem (Account_Balance (data s)).

(** The balance changes recorded in a trace. *)
Definition balance_changes (tr : list event)
  : list (Address * CoinSymbol * Z) :=
  omap (fun e => match e with
                 | EvBalanceChange addr coin amount => Some (addr, coin, amount)
                 | EvDirty _ _ => None
                 end) tr.

Lemma balance_contents mem s c :
  balance mem s c
  = default 0 (contents mem (Account_Balance (data s)) !! c).
Proof.
  unfold balance, stateObject_Balance, contents.
  destruct (Data (Account_Balance (data s))) as [l|]; run_M; [|done].
  by destruct (default ∅ (maps mem !! l) !! c).
Qed.

(** Everything [SetBalance] does. *)
Lemma SetBalance_effect s c a mem :
  has_map mem s ->
  has_map (exec (SetBalance s c a) mem) (eval (SetBalance s c a) mem)
  /\ contents (exec (SetBalance s c a) mem)
              (Account_Balance (data (eval (SetBalance s c a) mem)))
     = <[c := a]> (contents mem (Account_Balance (data s)))
  /\ trace (exec (SetBalance s c a) mem)
     = trace mem ++ EvBalanceChange (address s) c a
                 :: match onDirty s with
                    | Some f => [EvDirty f (address s)]
                    | None => []
                    end
  /\ address (eval (SetBalance s c a) mem) = address s
  /\ Account_Nonce (data (eval (SetBalance s c a) mem)) = Account_Nonce (data s)
  /\ Account_Root (data (eval (SetBalance s c a) mem)) = Account_Root (data s)
  /\ suicided (eval (SetBalance s c a) mem) = suicided s
  /\ touched (eval (SetBalance s c a) mem) = touched s
  /\ deleted (eval (SetBalance s c a) mem) = deleted s.
Proof.
  destruct s as [addr [n [[l|]] root] su to de [f|]];
    unfold has_map, valid, SetBalance, setBalance, fire_onDirty,
      stateObject_Address, contents; intros Hv; run_M.
  - destruct (lookup_lt_is_Some_2 _ _ Hv) as [m0 Hm0].
    rewrite length_alter, list_lookup_alter_eq, Hm0, <- app_assoc. simpl.
    repeat split; done.
  - destruct (lookup_lt_is_Some_2 _ _ Hv) as [m0 Hm0].
    rewrite length_alter, list_lookup_alter_eq, Hm0. simpl.
    repeat split; done.
  - rewrite length_alter, length_app, list_lookup_alter_eq,
      list_lookup_middle, <- app_assoc by done. simpl.
    repeat split; try done; lia.
  - rewrite length_alter, length_app, list_lookup_alter_eq,
      list_lookup_middle by done. simpl.
    repeat split; try done; lia.
Qed.

(** The fields that the balance methods leave alone. *)
Lemma SetBalance_fields s c a mem :
  address (eval (SetBalance s c a) mem) = address s
  /\ Account_Nonce (data (eval (SetBalance s c a) mem)) = Account_Nonce (data s)
  /\ Account_Root (data (eval (SetBalance s c a) mem)) = Account_Root (data s)
  /\ suicided (eval (SetBalance s c a) mem) = suicided s
  /\ touched (eval (SetBalance s c a) mem) = touched s
  /\ deleted (eval (SetBalance s c a) mem) = deleted s.
Proof.
  destruct s as [addr [n [[l|]] root] su to de [f|]];
    unfold SetBalance, setBalance, fire_onDirty; run_M; done.
Qed.

Lemma SetBalance_read s c a mem :
  has_map mem s ->
  forall c',
    balance (exec (SetBalance s c a) mem) (eval (SetBalance s c a) mem) c'
    = if decide (c = c') then a else balance mem s c'.
Proof.
  intros Hv c'. destruct (SetBalance_effect s c a mem Hv) as (_ & Hc & _).
  rewrite !balance_contents, Hc, lookup_insert. by case_decide.
Qed.

(** X7. Writing and reading one object: after [SetBalance(c, a)] the
    balance of [c] is [a], whatever it was, and the balance of every other
    coin is what it was. *)
Theorem SetBalance_then_Balance s c a mem :
  has_map mem s ->
  forall c',
    balance (exec (SetBalance s c a) mem) (eval (SetBalance s c a) mem) c'
    = if decide (c = c') then a else balance mem s c'.
Proof.
  intros Hv c'. destruct (SetBalance_effect s c a mem Hv) as (_ & Hc & _).
  rewrite !balance_contents, Hc, lookup_insert. by case_decide.
Qed.

(** What [AddBalance] and [SubBalance] do to the balances. *)
Lemma AddBalance_effect s c a mem :
  has_map mem s ->
  has_map (exec (AddBalance s c a) mem) (eval (AddBalance s c a) mem)
  /\ forall c',
       balance (exec (AddBalance s c a) mem) (eval (AddBalance s c a) mem) c'
       = balance mem s c' + if decide (c = c') then a else 0.
Proof.
  intros Hv. unfold AddBalance, big.Sign, empty.
  destruct (Z.eqb_spec (Z.sgn a) 0) as [E|E].
  - assert (a = 0) as -> by lia. split; [done|].
    intros c'. unfold eval, exec, ret. simpl. case_decide; lia.
  - unfold eval, exec. rewrite bind_stateObject_Balance.
    fold (balance mem s c).
    destruct (SetBalance_effect s c (balance mem s c + a) mem Hv) as (H1 & _).
    split; [exact H1|]. intros c'.
    pose proof (SetBalance_read s c (balance mem s c + a) mem Hv c') as H.
    unfold eval, exec in H. rewrite H. case_decide; [by subst|lia].
Qed.

Lemma SubBalance_effect s c a mem :
  has_map mem s ->
  has_map (exec (SubBalance s c a) mem) (eval (SubBalance s c a) mem)
  /\ forall c',
       balance (exec (SubBalance s c a) mem) (eval (SubBalance s c a) mem) c'
       = balance mem s c' - if decide (c = c') then a else 0.
Proof.
  intros Hv. unfold SubBalance, big.Sign.
  destruct (Z.eqb_spec (Z.sgn a) 0) as [E|E].
  - assert (a = 0) as -> by lia. split; [done|].
    intros c'. unfold eval, exec, ret. simpl. case_decide; lia.
  - unfold eval, exec. rewrite bind_stateObject_Balance.
    fold (balance mem s c).
    destruct (SetBalance_effect s c (balance mem s c - a) mem Hv) as (H1 & _).
    split; [exact H1|]. intros c'.
    pose proof (SetBalance_read s c (balance mem s c - a) mem Hv c') as H.
    unfold eval, exec in H. rewrite H. case_decide; [by subst|lia].
Qed.

(** X8. [AddBalance(c, a)] raises the balance of [c] by [a] and
    [SubBalance(c, a)] lowers it by [a], for every amount (zero and
    negative amounts included) and without any check of sufficiency, so
    the balance can fall below zero; no other coin is affected; and
    [SubBalance] after [AddBalance] with one amount restores every
    balance. *)
Theorem AddBalance_SubBalance s c a mem :
  has_map mem s ->
  (forall c',
     balance (exec (AddBalance s c a) mem) (eval (AddBalance s c a) mem) c'
     = balance mem s c' + if decide (c = c') then a else 0)
  /\ (forall c',
        balance (exec (SubBalance s c a) mem) (eval (SubBalance s c a) mem) c'
        = balance mem s c' - if decide (c = c') then a else 0)
  /\ (forall c',
        balance (exec (s1 ← AddBalance s c a; SubBalance s1 c a) mem)
                (eval (s1 ← AddBalance s c a; SubBalance s1 c a) mem) c'
        = balance mem s c').
Proof.
  intros Hv.
  destruct (AddBalance_effect s c a mem Hv) as [Hv1 Hadd].
  destruct (SubBalance_effect s c a mem Hv) as [_ Hsub].
  split; [exact Hadd|]. split; [exact Hsub|].
  intros c'.
  destruct (SubBalance_effect (eval (AddBalance s c a) mem) c a
              (exec (AddBalance s c a) mem) Hv1) as [_ Hsub1].
  specialize (Hsub1 c'). specialize (Hadd c').
  unfold eval, exec, mbind, M_bind, bind in *.
  destruct (AddBalance s c a mem) as [s1 mem1]. simpl in *.
  rewrite Hsub1, Hadd. lia.
Qed.

(** An object with an overdrawn balance: [SubBalance] is called for more
    than the account holds. *)
Definition overdraw : M stateObject :=
  obj ← newObject 7 (mkAccount 0 (mkBalances None) 0) None;
  obj ← AddBalance obj coin_A 5;
  SubBalance obj coin_A 8.

Example overdraw_balance :
  balance (exec overdraw (mkMemory [] [])) (eval overdraw (mkMemory [] []))
          coin_A = -3.
Proof. vm_compute. reflexivity. Qed.

(** *** The fields a call leaves alone *)

Lemma fire_onDirty_effect s mem :
  maps (exec (fire_onDirty s) mem) = maps mem
  /\ balance_changes (trace (exec (fire_onDirty s) mem))
     = balance_changes (trace mem)
  /\ data (eval (fire_onDirty s) mem) = data s
  /\ address (eval (fire_onDirty s) mem) = address s
  /\ suicided (eval (fire_onDirty s) mem) = suicided s
  /\ touched (eval (fire_onDirty s) mem) = touched s
  /\ deleted (eval (fire_onDirty s) mem) = deleted s.
Proof.
  unfold fire_onDirty, balance_changes.
  destruct (onDirty s) as [f|]; run_M; [|done].
  rewrite omap_app. simpl. by rewrite app_nil_r.
Qed.

Lemma AddBalance_unfold s c a mem :
  AddBalance s c a mem
  = if a =? 0 then (s, mem) else SetBalance s c (balance mem s c + a) mem.
Proof.
  unfold AddBalance, big.Sign, empty.
  destruct (Z.eqb_spec a 0) as [->|Hne]; [done|].
  destruct (Z.eqb_spec (Z.sgn a) 0) as [E|_]; [lia|].
  by rewrite bind_stateObject_Balance.
Qed.

Lemma SubBalance_unfold s c a mem :
  SubBalance s c a mem
  = if a =? 0 then (s, mem) else SetBalance s c (balance mem s c - a) mem.
Proof.
  unfold SubBalance, big.Sign.
  destruct (Z.eqb_spec a 0) as [->|Hne]; [done|].
  destruct (Z.eqb_spec (Z.sgn a) 0) as [E|_]; [lia|].
  by rewrite bind_stateObject_Balance.
Qed.

(** The calls that write a balance. *)
Definition writes_balance (op : mutation) : bool :=
  match op with
  | CallSetBalance _ _ | CallAddBalance _ _ | CallSubBalance _ _ => true
  | _ => false
  end.

(** X9. Each mutating method changes its own field and nothing else of
    the object: the address, the storage root and [deleted] are never
    changed; the nonce only by [SetNonce]; [suicided] only by
    [markSuicided], which sets it; [touched] only by [touch], which sets
    it (so not by [AddBalance] with a zero amount, [empty] being constantly
    false); and [SetNonce], [markSuicided] and [touch] leave the map
    reference and every map of the memory as they are. *)
Theorem call_frame op s mem :
  address (eval (call op s) mem) = address s
  /\ Account_Root (data (eval (call op s) mem)) = Account_Root (data s)
  /\ deleted (eval (call op s) mem) = deleted s
  /\ Account_Nonce (data (eval (call op s) mem))
     = match op with
       | CallSetNonce nonce => nonce
       | _ => Account_Nonce (data s)
       end
  /\ suicided (eval (call op s) mem)
     = match op with CallMarkSuicided => true | _ => suicided s end
  /\ touched (eval (call op s) mem)
     = match op with CallTouch => true | _ => touched s end
  /\ (writes_balance op = false ->
      maps (exec (call op s) mem) = maps mem
      /\ Account_Balance (data (eval (call op s) mem))
         = Account_Balance (data s)).
Proof.
  destruct op as [c a|c a|c a|n| |]; simpl.
  - destruct (SetBalance_fields s c a mem) as (H1 & H2 & H3 & H4 & H5 & H6).
    by rewrite H1, H2, H3, H4, H5, H6.
  - unfold eval, exec. rewrite AddBalance_unfold.
    destruct (a =? 0); [done|].
    destruct (SetBalance_fields s c (balance mem s c + a) mem)
      as (H1 & H2 & H3 & H4 & H5 & H6).
    unfold eval in *. by rewrite H1, H2, H3, H4, H5, H6.
  - unfold eval, exec. rewrite SubBalance_unfold.
    destruct (a =? 0); [done|].
    destruct (SetBalance_fields s c (balance mem s c - a) mem)
      as (H1 & H2 & H3 & H4 & H5 & H6).
    unfold eval in *. by rewrite H1, H2, H3, H4, H5, H6.
  - unfold SetNonce, setNonce.
    destruct (fire_onDirty_effect (with_Nonce s n) mem)
      as (H1 & _ & H3 & H4 & H5 & H6 & H7).
    by rewrite H1, H3, H4, H5, H6, H7.
  - unfold markSuicided.
    destruct (fire_onDirty_effect (with_suicided s true) mem)
      as (H1 & _ & H3 & H4 & H5 & H6 & H7).
    by rewrite H1, H3, H4, H5, H6, H7.
  - destruct (fire_onDirty_effect s mem) as (H1 & _ & H3 & H4 & H5 & H6 & H7).
    unfold touch, eval, exec, mbind, M_bind, bind, mret, M_ret, ret in *.
    destruct (fire_onDirty s mem) as [s' mem']. simpl in *.
    by rewrite H1, H3, H4, H5, H7.
Qed.

(** *** Balance changes reported to the sink *)

(** The balance of [coin] according to a list of reported changes, from
    the balance [before] them. *)
Definition replay (changes : list (Address * CoinSymbol * Z))
  (coin : CoinSymbol) (before : Z) : Z :=
  fold_left (fun b e => if decide (snd (fst e) = coin) then snd e else b)
            changes before.

Lemma balance_changes_app tr1 tr2 :
  balance_changes (tr1 ++ tr2) = balance_changes tr1 ++ balance_changes tr2.
Proof. apply omap_app. Qed.

Lemma SetBalance_reported s c a mem :
  has_map mem s ->
  has_map (exec (SetBalance s c a) mem) (eval (SetBalance s c a) mem)
  /\ address (eval (SetBalance s c a) mem) = address s
  /\ balance_changes (trace (exec (SetBalance s c a) mem))
     = balance_changes (trace mem) ++ [(address s, c, a)]
  /\ forall c',
       balance (exec (SetBalance s c a) mem) (eval (SetBalance s c a) mem) c'
       = replay [(address s, c, a)] c' (balance mem s c').
Proof.
  intros Hv.
  destruct (SetBalance_effect s c a mem Hv) as (H1 & _ & H3 & H4 & _).
  split; [exact H1|]. split; [exact H4|]. split.
  - rewrite H3, balance_changes_app. simpl. by destruct (onDirty s).
  - intros c'. rewrite SetBalance_read by done. unfold replay. simpl.
    by repeat case_decide.
Qed.

(** A hypothesis-free reading of [has_map] for the frame of a call. *)
Lemma has_map_frame mem mem' s s' :
  maps mem' = maps mem ->
  Account_Balance (data s') = Account_Balance (data s) ->
  has_map mem s -> has_map mem' s'.
Proof. unfold has_map, valid. by intros -> ->. Qed.

Lemma balance_frame mem mem' s s' c :
  maps mem' = maps mem ->
  Account_Balance (data s') = Account_Balance (data s) ->
  balance mem' s' c = balance mem s c.
Proof.
  intros Hm Hd. rewrite !balance_contents. unfold contents. run_M.
  by rewrite Hd, Hm.
Qed.

(** One call: the changes it reports account for the balances it leaves. *)
Lemma call_reported op s mem :
  has_map mem s ->
  has_map (exec (call op s) mem) (eval (call op s) mem)
  /\ address (eval (call op s) mem) = address s
  /\ exists changes,
       balance_changes (trace (exec (call op s) mem))
       = balance_changes (trace mem) ++ changes
       /\ Forall (fun e => fst (fst e) = address s) changes
       /\ forall c,
            balance (exec (call op s) mem) (eval (call op s) mem) c
            = replay changes c (balance mem s c).
Proof.
  intros Hv.
  assert (Hidle : has_map mem s /\ address s = address s
    /\ exists changes,
         balance_changes (trace mem) = balance_changes (trace mem) ++ changes
         /\ Forall (fun e => fst (fst e) = address s) changes
         /\ forall c, balance mem s c = replay changes c (balance mem s c)).
  { split; [done|]. split; [done|]. exists []. by rewrite app_nil_r. }
  assert (Hset : forall a c,
    has_map (exec (SetBalance s c a) mem) (eval (SetBalance s c a) mem)
    /\ address (eval (SetBalance s c a) mem) = address s
    /\ exists changes,
         balance_changes (trace (exec (SetBalance s c a) mem))
         = balance_changes (trace mem) ++ changes
         /\ Forall (fun e => fst (fst e) = address s) changes
         /\ forall c',
              balance (exec (SetBalance s c a) mem)
                      (eval (SetBalance s c a) mem) c'
              = replay changes c' (balance mem s c')).
  { intros a c.
    destruct (SetBalance_reported s c a mem Hv) as (H1 & H2 & H3 & H4).
    split; [exact H1|]. split; [exact H2|].
    exists [(address s, c, a)]. split; [exact H3|]. split; [|exact H4].
    by constructor. }
  assert (Hfire : forall s0,
    Account_Balance (data s0) = Account_Balance (data s) ->
    address s0 = address s ->
    has_map (exec (fire_onDirty s0) mem) (eval (fire_onDirty s0) mem)
    /\ address (eval (fire_onDirty s0) mem) = address s
    /\ exists changes,
         balance_changes (trace (exec (fire_onDirty s0) mem))
         = balance_changes (trace mem) ++ changes
         /\ Forall (fun e => fst (fst e) = address s) changes
         /\ forall c,
              balance (exec (fire_onDirty s0) mem) (eval (fire_onDirty s0) mem) c
              = replay changes c (balance mem s c)).
  { intros s0 Hd Ha.
    destruct (fire_onDirty_effect s0 mem) as (H1 & H2 & H3 & H4 & _).
    assert (Hd' : Account_Balance (data (eval (fire_onDirty s0) mem))
                  = Account_Balance (data s)) by (by rewrite H3).
    split; [by apply (has_map_frame mem _ s)|].
    split; [by rewrite H4|].
    exists []. rewrite app_nil_r. split; [done|]. split; [done|].
    intros c. by apply balance_frame. }
  destruct op as [c a|c a|c a|n| |]; simpl.
  - apply Hset.
  - unfold eval, exec. rewrite AddBalance_unfold.
    destruct (a =? 0); [exact Hidle|]. apply Hset.
  - unfold eval, exec. rewrite SubBalance_unfold.
    destruct (a =? 0); [exact Hidle|]. apply Hset.
  - unfold SetNonce, setNonce. by apply Hfire.
  - unfold markSuicided. by apply Hfire.
  - specialize (Hfire s eq_refl eq_refl).
    unfold touch, has_map, balance, stateObject_Balance, valid in *.
    unfold eval, exec, mbind, M_bind, bind, mret, M_ret, ret in *.
    destruct (fire_onDirty s mem) as [s' mem']. simpl in *. exact Hfire.
Qed.

Lemma replay_app changes1 changes2 c b :
  replay (changes1 ++ changes2) c b = replay changes2 c (replay changes1 c b).
Proof. apply fold_left_app. Qed.

(** X12. The balance changes reported to the sink are a complete and
    exact journal of the balances of an object.  Over any sequence of
    calls of the mutating methods, the changes reported during the
    sequence all carry the object's address, and replaying them over the
    balances before the sequence (each change overwrites the balance of
    its coin with its amount) gives, for every coin, the balance the
    object has after it. *)
Theorem balance_changes_journal ops s mem :
  has_map mem s ->
  exists changes,
    balance_changes (trace (exec (calls ops s) mem))
    = balance_changes (trace mem) ++ changes
    /\ Forall (fun e => fst (fst e) = address s) changes
    /\ forall c,
         balance (exec (calls ops s) mem) (eval (calls ops s) mem) c
         = replay changes c (balance mem s c).
Proof.
  revert s mem. induction ops as [|op ops IH]; intros s mem Hv.
  - exists []. rewrite app_nil_r. by run_M.
  - destruct (call_reported op s mem Hv) as (Hv1 & Ha & ch1 & T1 & F1 & B1).
    destruct (IH _ _ Hv1) as (ch2 & T2 & F2 & B2).
    change (calls (op :: ops) s) with (s ← call op s; calls ops s).
    unfold eval, exec, mbind, M_bind, bind in *.
    destruct (call op s mem) as [s1 mem1]. simpl in *.
    exists (ch1 ++ ch2). split; [by rewrite T2, T1, app_assoc|].
    split.
    + apply Forall_app. split; [done|]. by rewrite <- Ha.
    + intros c. by rewrite replay_app, B2, B1.
Qed.

(** *** [deepCopy] and [EncodeRLP] of an object *)

(** X10. [deepCopy] makes an object with the same address, nonce, root,
    [suicided] and [deleted], with the callback it is given and with
    [touched] cleared; it reports nothing; the copy has the balances of
    the original.  The balance map is shared, not copied, whenever the
    original has one: a later [SetBalance] on the copy is then read back
    through the original.  Only for an original with a nil map does the
    copy get a map of its own, and the original keeps reading zero. *)
Theorem deepCopy_effect self cb c a mem :
  has_map mem self ->
  trace (exec (deepCopy self cb) mem) = trace mem
  /\ address (eval (deepCopy self cb) mem) = address self
  /\ Account_Nonce (data (eval (deepCopy self cb) mem))
     = Account_Nonce (data self)
  /\ Account_Root (data (eval (deepCopy self cb) mem))
     = Account_Root (data self)
  /\ suicided (eval (deepCopy self cb) mem) = suicided self
  /\ deleted (eval (deepCopy self cb) mem) = deleted self
  /\ touched (eval (deepCopy self cb) mem) = false
  /\ onDirty (eval (deepCopy self cb) mem) = cb
  /\ (forall c', balance (exec (deepCopy self cb) mem)
                         (eval (deepCopy self cb) mem) c'
                 = balance mem self c')
  /\ balance (exec (SetBalance (eval (deepCopy self cb) mem) c a)
                   (exec (deepCopy self cb) mem)) self c
     = match Data (Account_Balance (data self)) with
       | Some _ => a
       | None => 0
       end.
Proof.
  intros Hv.
  destruct self as [addr [n [[l|]] root] su to de f];
    unfold has_map, valid in Hv; simpl in Hv.
  - unfold deepCopy, newObject. simpl.
    repeat (split; [by run_M|]). simpl.
    change (exec _ mem) with mem.
    apply (SetBalance_seen_through_alias _ _ l); done.
  - unfold deepCopy, newObject. simpl.
    repeat (split; [by run_M|]). split.
    + intros c'. unfold balance, stateObject_Balance. run_M.
      rewrite list_lookup_middle by done. simpl. by rewrite lookup_empty.
    + by unfold balance, stateObject_Balance; run_M.
Qed.

Section ObjectRLP.

Variable rlp_Encode_Account : Z -> list Balance -> Hash -> result (list byte).

(** X11. What [EncodeRLP] of an object depends on: the nonce, the root
    and the positive part of the balances.  Two objects, in whatever
    memories, with the same nonce and root and with balances that agree
    wherever one of them is above zero, are encoded alike, whatever their
    address, flags, callback and their zero or negative balances; and
    encoding changes nothing. *)
Theorem stateObject_EncodeRLP_canonical s1 mem1 s2 mem2 :
  Account_Nonce (data s1) = Account_Nonce (data s2) ->
  Account_Root (data s1) = Account_Root (data s2) ->
  (forall c, Z.max 0 (balance mem1 s1 c) = Z.max 0 (balance mem2 s2 c)) ->
  eval (stateObject_EncodeRLP rlp_Encode_Account s1) mem1
  = eval (stateObject_EncodeRLP rlp_Encode_Account s2) mem2
  /\ exec (stateObject_EncodeRLP rlp_Encode_Account s1) mem1 = mem1.
Proof.
  intros Hn Hr Hb.
  assert (He : eval (EncodeRLP_balances (Account_Balance (data s1))) mem1
               = eval (EncodeRLP_balances (Account_Balance (data s2))) mem2).
  { apply EncodeRLP_balances_same_positive. intros c v Hpos.
    specialize (Hb c). rewrite !balance_contents in Hb.
    destruct (contents mem1 (Account_Balance (data s1)) !! c) as [v1|];
      destruct (contents mem2 (Account_Balance (data s2)) !! c) as [v2|];
      simpl in Hb; split; intros [= ->]; f_equal; lia. }
  unfold stateObject_EncodeRLP.
  pose proof (EncodeRLP_balances_run mem1 (Account_Balance (data s1))) as R1.
  pose proof (EncodeRLP_balances_run mem2 (Account_Balance (data s2))) as R2.
  unfold eval, exec, mbind, M_bind, bind, mret, M_ret, ret in *.
  rewrite R1, R2 in *. simpl in *. by rewrite He, Hn, Hr.
Qed.

End ObjectRLP.

(** An account that holds 5 of coin AAA, and the same account as another
    object sees it: other address and flags, an entry of zero and an
    overdrawn one. *)
Definition holder_mem : memory :=
  mkMemory [ <[coin_A := 5]> (<[coin_Z := 0]> ∅);
             <[coin_A := 5]> (<[coin_B := -3]> ∅) ] [].

Definition holder : stateObject :=
  mkStateObject 7 (mkAccount 1 (mkBalances (Some 0%nat)) 9)
                false false false (Some 1%nat).

Definition holder' : stateObject :=
  mkStateObject 8 (mkAccount 1 (mkBalances (Some 1%nat)) 9)
                true true false None.

Lemma SetBalance_then_Balance_witness :
  balance (exec (SetBalance holder coin_B 4) holder_mem)
          (eval (SetBalance holder coin_B 4) holder_mem) coin_A
  = if decide (coin_B = coin_A) then 4 else balance holder_mem holder coin_A.
Proof.
  apply (SetBalance_then_Balance holder coin_B 4 holder_mem).
  unfold has_map, valid. simpl. lia.
Defined.

Lemma AddBalance_SubBalance_witness :
  balance (exec (s1 ← AddBalance holder coin_A 8; SubBalance s1 coin_A 8)
                holder_mem)
          (eval (s1 ← AddBalance holder coin_A 8; SubBalance s1 coin_A 8)
                holder_mem) coin_A
  = balance holder_mem holder coin_A.
Proof.
  assert (Hv : has_map holder_mem holder)
    by (unfold has_map, valid; simpl; lia).
  destruct (AddBalance_SubBalance holder coin_A 8 holder_mem Hv)
    as (_ & _ & H).
  exact (H coin_A).
Defined.

Lemma balance_changes_journal_witness :
  exists changes,
    balance_changes
      (trace (exec (calls [CallAddBalance coin_A 2; CallSetNonce 3;
                           CallSubBalance coin_B 1] holder) holder_mem))
    = balance_changes (trace holder_mem) ++ changes
    /\ Forall (fun e => fst (fst e) = address holder) changes
    /\ forall c,
         balance
           (exec (calls [CallAddBalance coin_A 2; CallSetNonce 3;
                         CallSubBalance coin_B 1] holder) holder_mem)
           (eval (calls [CallAddBalance coin_A 2; CallSetNonce 3;
                         CallSubBalance coin_B 1] holder) holder_mem) c
         = replay changes c (balance holder_mem holder c).
Proof.
  apply (balance_changes_journal
           [CallAddBalance coin_A 2; CallSetNonce 3; CallSubBalance coin_B 1]
           holder holder_mem).
  unfold has_map, valid. simpl. lia.
Defined.

Lemma deepCopy_effect_witness :
  balance (exec (SetBalance (eval (deepCopy holder None) holder_mem) coin_A 1)
                (exec (deepCopy holder None) holder_mem)) holder coin_A
  = 1.
Proof.
  assert (Hv : has_map holder_mem holder)
    by (unfold has_map, valid; simpl; lia).
  destruct (deepCopy_effect holder None coin_A 1 holder_mem Hv)
    as (_ & _ & _ & _ & _ & _ & _ & _ & _ & H).
  exact H.
Defined.

(** A stand-in for the encoder of accounts: it lists the nonce, the
    amounts and the root. *)
Definition list_fields (nonce : Z) (balances : list Balance) (root : Hash)
  : result (list byte) :=
  Ok (map byte_of_Z (nonce :: map Amount balances ++ [root])).

Lemma stateObject_EncodeRLP_canonical_witness :
  eval (stateObject_EncodeRLP list_fields holder) holder_mem
  = eval (stateObject_EncodeRLP list_fields holder') holder_mem
  /\ exec (stateObject_EncodeRLP list_fields holder) holder_mem = holder_mem.
Proof.
  apply (stateObject_EncodeRLP_canonical list_fields
           holder holder_mem holder' holder_mem).
  - reflexivity.
  - reflexivity.
  - intros c. rewrite !balance_contents. unfold contents. run_M.
    destruct (decide (c = coin_A)) as [->|HA]; [reflexivity|].
    rewrite !(lookup_insert_ne _ coin_A) by done.
    destruct (decide (c = coin_Z)) as [->|HZ]; [reflexivity|].
    rewrite (lookup_insert_ne _ coin_Z) by done.
    destruct (decide (c = coin_B)) as [->|HB]; [reflexivity|].
    by rewrite (lookup_insert_ne _ coin_B) by done.
Defined.

End object_props.

(** ** The check: signature bytes, lock key, decoding before recovery *)

Module check_props.
Import types check check_facts.

Lemma SetBytes_zeros n l :
  big.SetBytes (replicate n x00 ++ l) = big.SetBytes l.
Proof.
  rewrite big_facts.SetBytes_app.
  assert (big.SetBytes (replicate n x00) = 0) as ->; [|lia].
  induction n as [|n IH]; [done|].
  change (replicate (Datatypes.S n) x00) with (x00 :: replicate n x00).
  rewrite big_facts.SetBytes_cons, IH. change (byte_to_Z x00) with 0. lia.
Qed.

Lemma pad_length (l : list byte) :
  (length l <= 32)%nat ->
  length (replicate (32 - length l) x00 ++ l) = 32%nat.
Proof. intros H. rewrite length_app, length_replicate. lia. Qed.

(** When both numbers fit 32 bytes the two copies do not overlap: the
    signature is the two padded halves and the recovery id. *)
Lemma encode_sig_fit (r s : list byte) (v : Z) :
  (length r <= 32)%nat -> (length s <= 32)%nat ->
  encode_sig r s v
  = (replicate (32 - length r) x00 ++ r)
    ++ (replicate (32 - length s) x00 ++ s) ++ [byte_of_Z v].
Proof.
  intros Lr Ls. pose proof (pad_length _ Lr) as Pr.
  pose proof (pad_length _ Ls) as Ps.
  unfold encode_sig, copy_at.
  set (pr := replicate (32 - length r) x00 ++ r) in *.
  set (ps := replicate (32 - length s) x00 ++ s) in *.
  assert (E1 : take (32 - length r) (replicate 65 x00) ++ r
               ++ drop (32 - length r + length r) (replicate 65 x00)
               = pr ++ replicate 33 x00).
  { rewrite take_replicate, drop_replicate.
    replace ((32 - length r) `min` 65)%nat with (32 - length r)%nat by lia.
    replace (65 - (32 - length r + length r))%nat with 33%nat by lia.
    unfold pr. by rewrite <- app_assoc. }
  rewrite E1.
  assert (E2 : take (64 - length s) (pr ++ replicate 33 x00) ++ s
               ++ drop (64 - length s + length s) (pr ++ replicate 33 x00)
               = (pr ++ ps) ++ [x00]).
  { rewrite take_app_ge, drop_app_ge by lia.
    rewrite take_replicate, drop_replicate, Pr.
    replace ((64 - length s - 32) `min` 33)%nat with (32 - length s)%nat
      by lia.
    replace (33 - (64 - length s + length s - 32))%nat with 1%nat by lia.
    unfold ps. simpl. by rewrite <- !app_assoc. }
  rewrite E2.
  rewrite insert_app_r_alt by (rewrite length_app, Pr, Ps; lia).
  rewrite length_app, Pr, Ps. simpl. by rewrite <- app_assoc.
Qed.

(** X13. The 65 bytes that [recoverPlain] hands to the key recovery, for
    R and S that fit 32 bytes: bytes 0-31 spell |R| and bytes 32-63 spell
    |S|, each big-endian and padded with zero bytes on the left, and byte
    64 is the recovery id.  So the three numbers are read back from the
    signature, and different (|R|, |S|, id) never give the same bytes. *)
Theorem encode_sig_layout (r s v : Z) :
  Z.abs r < 2 ^ 256 -> Z.abs s < 2 ^ 256 ->
  length (encode_sig (big.Bytes r) (big.Bytes s) v) = 65%nat
  /\ big.SetBytes (take 32 (encode_sig (big.Bytes r) (big.Bytes s) v))
     = Z.abs r
  /\ big.SetBytes
       (take 32 (drop 32 (encode_sig (big.Bytes r) (big.Bytes s) v)))
     = Z.abs s
  /\ drop 64 (encode_sig (big.Bytes r) (big.Bytes s) v) = [byte_of_Z v].
Proof.
  intros Hr Hs.
  assert (Lr : (length (big.Bytes r) <= 32)%nat)
    by (apply big_facts.Bytes_length_le; exact Hr).
  assert (Ls : (length (big.Bytes s) <= 32)%nat)
    by (apply big_facts.Bytes_length_le; exact Hs).
  pose proof (pad_length _ Lr) as Pr. pose proof (pad_length _ Ls) as Ps.
  rewrite encode_sig_fit by done.
  set (pr := replicate (32 - length (big.Bytes r)) x00 ++ big.Bytes r) in *.
  set (ps := replicate (32 - length (big.Bytes s)) x00 ++ big.Bytes s) in *.
  split; [rewrite !length_app, Pr, Ps; simpl; lia|].
  split; [|split].
  - rewrite take_app_length' by done. unfold pr.
    by rewrite SetBytes_zeros, big_facts.SetBytes_Bytes.
  - rewrite drop_app_length' by done. rewrite take_app_length' by done.
    unfold ps. by rewrite SetBytes_zeros, big_facts.SetBytes_Bytes.
  - rewrite app_assoc. rewrite drop_app_length'; [done|].
    rewrite length_app, Pr, Ps. lia.
Qed.

Lemma encode_sig_layout_witness :
  length (encode_sig (big.Bytes 258) (big.Bytes (-1)) 1) = 65%nat
  /\ big.SetBytes (take 32 (encode_sig (big.Bytes 258) (big.Bytes (-1)) 1))
     = Z.abs 258
  /\ big.SetBytes
       (take 32 (drop 32 (encode_sig (big.Bytes 258) (big.Bytes (-1)) 1)))
     = Z.abs (-1)
  /\ drop 64 (encode_sig (big.Bytes 258) (big.Bytes (-1)) 1) = [byte_of_Z 1].
Proof. apply (encode_sig_layout 258 (-1) 1); reflexivity. Defined.

Section LockKey.

Variable rlp_Encode : list rlp_item -> list byte.
Variable Keccak256 : list byte -> Z.
Variable Ecrecover : Hash -> list byte -> result (list byte).

Abbreviation LockPubKey' := (LockPubKey rlp_Encode Keccak256 Ecrecover).
Abbreviation lock_hash := (LockPubKey_hash rlp_Encode Keccak256).

(** X14. What [LockPubKey] returns.  It returns a key exactly when [Lock]
    is set and the recovery, from the hash of (Nonce, DueBlock, Coin,
    Value) and the bytes of |Lock|, yields that key and the key starts
    with the byte 4; it returns the error of the recovery as it is, and
    the error "invalid public key" for a recovered key that is empty or
    starts otherwise; it panics when [Lock] is nil (or the recovery
    does).  The length of [Lock] is not checked. *)
Theorem LockPubKey_result (check : Check) :
  (forall pub,
     LockPubKey' check = Ok pub
     <-> exists lock,
           Lock check = Some lock
           /\ Ecrecover (lock_hash check) (big.Bytes lock) = Ok pub
           /\ exists rest, pub = x04 :: rest)
  /\ (forall e,
        LockPubKey' check = Err e
        <-> exists lock,
              Lock check = Some lock
              /\ (Ecrecover (lock_hash check) (big.Bytes lock) = Err e
                  \/ e = errors_New "invalid public key"
                     /\ exists pub,
                          Ecrecover (lock_hash check) (big.Bytes lock) = Ok pub
                          /\ forall rest, pub <> x04 :: rest))
  /\ (LockPubKey' check = Panic
      <-> Lock check = None
          \/ exists lock,
               Lock check = Some lock
               /\ Ecrecover (lock_hash check) (big.Bytes lock) = Panic).
Proof.
  unfold LockPubKey. fold (lock_hash check).
  destruct (Lock check) as [lock|].
  2: { repeat split; try done; try (by intros (? & ? & ?)); auto. }
  destruct (Ecrecover (lock_hash check) (big.Bytes lock)) as [pub|err|] eqn:E.
  - destruct (invalid_public_key pub) eqn:I.
    + assert (Hno : forall rest, pub <> x04 :: rest).
      { intros rest ->. by rewrite (proj2 (invalid_public_key_false _)) in I
          by eauto. }
      split; [|split].
      * intros pub'. split; [done|].
        intros (lock' & [= <-] & H & rest & ->). rewrite E in H.
        injection H as ->. by destruct (Hno rest).
      * intros e. split.
        -- intros [= <-]. exists lock. split; [done|]. right. split; [done|].
           by exists pub.
        -- intros (lock' & [= <-] & [H|(-> & _)]); [|done].
           by rewrite E in H.
      * split; [done|]. intros [?|(lock' & [= <-] & H)]; [done|].
        by rewrite E in H.
    + apply invalid_public_key_false in I as [rest ->].
      split; [|split].
      * intros pub'. split.
        -- intros [= <-]. exists lock. eauto.
        -- intros (lock' & [= <-] & H & _). rewrite E in H. by injection H as <-.
      * intros e. split; [done|].
        intros (lock' & [= <-] & [H|(_ & pub' & H & Hno)]); rewrite E in H;
          [done|].
        injection H as <-. by destruct (Hno rest).
      * split; [done|]. intros [?|(lock' & [= <-] & H)]; [done|].
        by rewrite E in H.
  - split; [|split].
    + intros pub'. split; [done|]. intros (lock' & [= <-] & H & _).
      by rewrite E in H.
    + intros e. split.
      * intros [= <-]. exists lock. auto.
      * intros (lock' & [= <-] & [H|(_ & pub' & H & _)]); rewrite E in H;
          [by injection H as <-|done].
    + split; [done|]. intros [?|(lock' & [= <-] & H)]; [done|].
      by rewrite E in H.
  - split; [|split].
    + intros pub'. split; [done|]. intros (lock' & [= <-] & H & _).
      by rewrite E in H.
    + intros e. split; [done|].
      intros (lock' & [= <-] & [H|(_ & pub' & H & _)]); by rewrite E in H.
    + split; [|done]. intros _. right. by exists lock.
Qed.

End LockKey.

Section DecodeThenSender.

Variable rlp_Encode : list rlp_item -> list byte.
Variable rlp_Decode : list byte -> Check * option error.
Variable Keccak256 : list byte -> Z.
Variable Ecrecover : Hash -> list byte -> result (list byte).
Variable ValidateSignatureValues : Z -> Z -> Z -> bool.

(** X15. [DecodeFromBytes] makes [Sender] safe to call.  When the
    validation accepts only R and S that fit 32 bytes, and the key
    recovery does not panic, [Sender] of a check that [DecodeFromBytes]
    has returned does not panic: it returns an address or an error.  (Of
    a check with V nil [Sender] panics; the decoding never returns such a
    check.) *)
Theorem Sender_after_DecodeFromBytes (buf : list byte) (check : Check) :
  (forall v r s, ValidateSignatureValues v r s = true ->
                 Z.abs r < 2 ^ 256 /\ Z.abs s < 2 ^ 256) ->
  (forall hash sig, Ecrecover hash sig <> Panic) ->
  DecodeFromBytes rlp_Decode buf = Ok check ->
  Sender rlp_Encode Keccak256 Ecrecover ValidateSignatureValues check
  <> Panic.
Proof.
  intros Hval Hrec. unfold DecodeFromBytes.
  destruct (bool_decide (S (rlp_Decode buf).1 = None)) eqn:ES; [done|].
  destruct (bool_decide (R (rlp_Decode buf).1 = None)) eqn:ER; [done|].
  destruct (bool_decide (V (rlp_Decode buf).1 = None)) eqn:EV; [done|].
  simpl. intros [= <-].
  apply bool_decide_eq_false in ES, ER, EV.
  unfold Sender, recoverPlain.
  destruct (V (rlp_Decode buf).1) as [v|]; [|done].
  destruct (R (rlp_Decode buf).1) as [r|]; [|done].
  destruct (S (rlp_Decode buf).1) as [s|]; [|done].
  destruct (big.BitLen v >? 8); [done|].
  destruct (ValidateSignatureValues _ r s) eqn:E; [|done]. simpl.
  apply Hval in E. rewrite (proj2 (Bytes_fit r s)) by lia.
  match goal with
  | |- context [Ecrecover ?h ?sg] =>
      pose proof (Hrec h sg); destruct (Ecrecover h sg)
  end; [|done|done].
  by destruct (invalid_public_key _).
Qed.

End DecodeThenSender.

(** Stand-ins for the example: a validation that bounds R and S, and a
    recovery that fails. *)
Definition validate_range (v r s : Z) : bool :=
  (0 <? r) && (r <? 2 ^ 256) && (0 <? s) && (s <? 2 ^ 256).

Definition recover_fails (hash : Hash) (sig : list byte)
  : result (list byte) :=
  Err (errors_New "recovery failed").

Lemma Sender_after_DecodeFromBytes_witness :
  Sender no_bytes zero_digest recover_fails validate_range
         (signed Check_zero 27 1 1)
  <> Panic.
Proof.
  apply (Sender_after_DecodeFromBytes no_bytes decode_then_complain
           zero_digest recover_fails validate_range [x00]).
  - intros v r s H. unfold validate_range in H.
    apply andb_true_iff in H as [H Hs2]. apply andb_true_iff in H as [H Hs1].
    apply andb_true_iff in H as [Hr1 Hr2].
    apply Z.ltb_lt in Hr1, Hr2, Hs1, Hs2. lia.
  - discriminate.
  - reflexivity.
Defined.

End check_props.

(** ** The delegation: which code is returned, and what is read *)

Module transaction_props.
Import types transaction transaction_facts.

Lemma Cmp_ltb x y : (big.Cmp x y <? 0) = (x <? y).
Proof.
  destruct (Z.ltb_spec x y) as [H|H].
  - apply Z.ltb_lt, big_facts.Cmp_lt. exact H.
  - apply Z.ltb_ge. apply Z.le_ngt. rewrite big_facts.Cmp_lt. lia.
Qed.

Section RunProps.

Variable CommissionMultiplier : Z.
Variable BaseCoin : CoinSymbol.
Variable CalculateSaleAmount : Z -> Z -> Z -> Z -> Z.

Abbreviation Run' := (Run CommissionMultiplier BaseCoin CalculateSaleAmount).
Abbreviation commission' :=
  (commission CommissionMultiplier BaseCoin CalculateSaleAmount).
Abbreviation commissionInBaseCoin' := (commissionInBaseCoin CommissionMultiplier).

(** The code of the response that [Run] returns. *)
Definition Run_code (data : DelegateData) (sender : Address)
  (tx : Transaction) (context : StateDB) (isCheck : bool) (rewardPool : Z)
  (currentBlock : Z) : option code :=
  option_map (fun out => Code (response out))
             (Run' data sender tx context isCheck rewardPool currentBlock).

(** The balance checks pass. *)
Definition funded (data : DelegateData) (sender : Address) (tx : Transaction)
  (context : StateDB) (com : Z) : Prop :=
  com <= GetBalance context sender (GasCoin tx)
  /\ Stake data <= GetBalance context sender (Coin data)
  /\ (Coin data = GasCoin tx ->
      Stake data + com <= GetBalance context sender (GasCoin tx)).

Lemma Run_checked_code data sender tx context isCheck rewardPool cib com :
  (funded data sender tx context com ->
   Code (response (Run_checked data sender tx context isCheck rewardPool
                               cib com))
   = if CandidateExists context (PubKey data) then OK else CandidateNotFound)
  /\ (~ funded data sender tx context com ->
      Code (response (Run_checked data sender tx context isCheck rewardPool
                                  cib com))
      = InsufficientFunds).
Proof.
  unfold Run_checked, funded. rewrite !Cmp_ltb.
  destruct (Z.ltb_spec (GetBalance context sender (GasCoin tx)) com);
    [split; [lia|done]|].
  destruct (Z.ltb_spec (GetBalance context sender (Coin data)) (Stake data));
    [split; [lia|done]|].
  destruct (decide (Coin data = GasCoin tx)) as [Hc|Hc].
  - rewrite (bool_decide_eq_true_2 _ Hc). simpl.
    destruct (Z.ltb_spec (GetBalance context sender (GasCoin tx))
                         (0 + Stake data + com)).
    + split; [|done]. intros (_ & _ & H'). specialize (H' Hc). lia.
    + split.
      * intros _. by destruct (CandidateExists context (PubKey data)),
          isCheck.
      * intros Hn. exfalso. apply Hn. repeat split; try done; intros _; lia.
  - rewrite (bool_decide_eq_false_2 _ Hc). simpl. split.
    + intros _. by destruct (CandidateExists context (PubKey data)), isCheck.
    + intros Hn. exfalso. apply Hn. by repeat split.
Qed.

Lemma classic_funded data sender tx context com :
  funded data sender tx context com \/ ~ funded data sender tx context com.
Proof.
  unfold funded.
  destruct (Z.le_gt_cases com (GetBalance context sender (GasCoin tx)));
    [|right; lia].
  destruct (Z.le_gt_cases (Stake data)
              (GetBalance context sender (Coin data))); [|right; lia].
  destruct (decide (Coin data = GasCoin tx)) as [E|E].
  - destruct (Z.le_gt_cases (Stake data + com)
                (GetBalance context sender (GasCoin tx))).
    + left. by repeat split.
    + right. intros (_ & _ & H'). specialize (H' E). lia.
  - left. by repeat split.
Qed.

(** The code returned, region by region. *)
Lemma Run_code_regions data sender tx context isCheck rewardPool
  currentBlock :
  (CoinExists context (GasCoin tx) = false
   /\ Run_code data sender tx context isCheck rewardPool currentBlock
      = Some CoinNotExists)
  \/ (CoinExists context (GasCoin tx) = true /\ Stake data <= 0
      /\ Run_code data sender tx context isCheck rewardPool currentBlock
         = Some StakeShouldBePositive)
  \/ (CoinExists context (GasCoin tx) = true /\ 0 < Stake data
      /\ commission' tx context = None
      /\ GasCoin tx <> BaseCoin
      /\ (exists coin, GetStateCoin context (GasCoin tx) = Some coin
                       /\ ReserveBalance coin < commissionInBaseCoin' tx)
      /\ Run_code data sender tx context isCheck rewardPool currentBlock
         = Some CoinReserveNotSufficient)
  \/ (CoinExists context (GasCoin tx) = true /\ 0 < Stake data
      /\ exists com,
           commission' tx context = Some com
           /\ (GasCoin tx <> BaseCoin ->
               exists coin, GetStateCoin context (GasCoin tx) = Some coin
                            /\ commissionInBaseCoin' tx <= ReserveBalance coin)
           /\ Run_code data sender tx context isCheck rewardPool currentBlock
              = Some (Code (response
                              (Run_checked data sender tx context isCheck
                                 rewardPool (commissionInBaseCoin' tx) com)))).
Proof.
  unfold Run_code, Run, commission, CoinExists, GetStateCoin.
  destruct (bool_decide (is_Some (coins context !! GasCoin tx))) eqn:Hex;
    simpl; [|by left].
  right. apply bool_decide_eq_true in Hex as [coin Hcoin].
  destruct (Z.ltb_spec (big.Cmp (Stake data) Big0) 1) as [Hs|Hs].
  { left. apply -> big_facts.Cmp_lt1 in Hs. by unfold Big0 in Hs. }
  right. apply Z.le_ngt in Hs. rewrite big_facts.Cmp_lt1 in Hs.
  unfold Big0 in Hs.
  destruct (decide (GasCoin tx <> BaseCoin)) as [Hb|Hb].
  - rewrite (bool_decide_eq_true_2 _ Hb), Hcoin, Cmp_ltb.
    destruct (Z.ltb_spec (ReserveBalance coin) (commissionInBaseCoin' tx)).
    + left. repeat split; try done; try lia. by exists coin.
    + right. split; [done|]. split; [lia|]. eexists. split; [done|].
      split; [|done]. intros _. by exists coin.
  - rewrite (bool_decide_eq_false_2 _ Hb).
    right. split; [done|]. split; [lia|]. eexists. split; [done|].
    split; [done|done].
Qed.

(** X16. When a delegation succeeds.  [Run] returns the code [OK] if and
    only if the gas coin exists, the stake is above zero, the commission
    is defined (the gas coin is the base coin, or its reserve covers the
    commission in base coin), the sender's balance of the gas coin covers
    the commission, the sender's balance of the stake coin covers the
    stake, one balance covers both when the two coins are one, and the
    candidate exists.  Nothing else is required: not that the stake coin
    exists, nor anything of the nonce or of the block. *)
Theorem Run_OK_iff data sender tx context isCheck rewardPool currentBlock :
  Run_code data sender tx context isCheck rewardPool currentBlock = Some OK
  <-> CoinExists context (GasCoin tx) = true
      /\ 0 < Stake data
      /\ (exists com, commission' tx context = Some com
                      /\ funded data sender tx context com)
      /\ CandidateExists context (PubKey data) = true.
Proof.
  destruct (Run_code_regions data sender tx context isCheck rewardPool
              currentBlock)
    as [(Hex & ->)|[(Hex & Hs & ->)|[(Hex & Hs & Hcom & _ & _ & ->)
       |(Hex & Hs & com & Hcom & _ & ->)]]].
  - split; [done|]. intros (? & _). congruence.
  - split; [done|]. intros (_ & ? & _). lia.
  - split; [done|]. intros (_ & _ & (com & ? & _) & _). congruence.
  - destruct (Run_checked_code data sender tx context isCheck rewardPool
                (commissionInBaseCoin' tx) com) as [Hf Hn].
    split.
    + intros [= Hc]. split; [done|]. split; [done|].
      destruct (classic_funded data sender tx context com) as [F|F].
      * rewrite (Hf F) in Hc. split; [by exists com|].
        by destruct (CandidateExists context (PubKey data)).
      * by rewrite (Hn F) in Hc.
    + intros (_ & _ & (com' & Hcom' & F) & Hcand).
      rewrite Hcom in Hcom'. injection Hcom' as <-.
      by rewrite (Hf F), Hcand.
Qed.

(** X17. The order of the checks of [Run]: each failure code is returned
    exactly when the checks before it pass and its own fails.
    [StakeShouldBePositive]: the gas coin exists and the stake is zero or
    negative.  [CoinReserveNotSufficient]: moreover the stake is above
    zero, the gas coin is not the base coin and its reserve is below the
    commission in base coin (a reserve equal to it passes).
    [InsufficientFunds]: the commission is defined and one of the three
    balance checks fails.  [CandidateNotFound]: the balance checks pass and
    the candidate does not exist. *)
Theorem Run_failure_codes data sender tx context isCheck rewardPool
  currentBlock :
  (Run_code data sender tx context isCheck rewardPool currentBlock
   = Some StakeShouldBePositive
   <-> CoinExists context (GasCoin tx) = true /\ Stake data <= 0)
  /\ (Run_code data sender tx context isCheck rewardPool currentBlock
      = Some CoinReserveNotSufficient
      <-> CoinExists context (GasCoin tx) = true /\ 0 < Stake data
          /\ GasCoin tx <> BaseCoin
          /\ exists coin,
               GetStateCoin context (GasCoin tx) = Some coin
               /\ ReserveBalance coin < commissionInBaseCoin' tx)
  /\ (Run_code data sender tx context isCheck rewardPool currentBlock
      = Some InsufficientFunds
      <-> CoinExists context (GasCoin tx) = true /\ 0 < Stake data
          /\ exists com,
               commission' tx context = Some com
               /\ (GetBalance context sender (GasCoin tx) < com
                   \/ GetBalance context sender (Coin data) < Stake data
                   \/ Coin data = GasCoin tx
                      /\ GetBalance context sender (GasCoin tx)
                         < Stake data + com))
  /\ (Run_code data sender tx context isCheck rewardPool currentBlock
      = Some CandidateNotFound
      <-> CoinExists context (GasCoin tx) = true /\ 0 < Stake data
          /\ (exists com, commission' tx context = Some com
                          /\ funded data sender tx context com)
          /\ CandidateExists context (PubKey data) = false).
Proof.
  assert (Hnf : forall com,
    ~ funded data sender tx context com
    <-> GetBalance context sender (GasCoin tx) < com
        \/ GetBalance context sender (Coin data) < Stake data
        \/ Coin data = GasCoin tx
           /\ GetBalance context sender (GasCoin tx) < Stake data + com).
  { intros com. unfold funded. split.
    - intros Hn.
      destruct (Z.le_gt_cases com (GetBalance context sender (GasCoin tx)));
        [|left; lia].
      destruct (Z.le_gt_cases (Stake data)
                  (GetBalance context sender (Coin data)));
        [|right; left; lia].
      right. right.
      destruct (decide (Coin data = GasCoin tx)) as [E|E].
      + split; [done|].
        destruct (Z.le_gt_cases (Stake data + com)
                    (GetBalance context sender (GasCoin tx))); [|lia].
        exfalso. apply Hn. by repeat split.
      + exfalso. apply Hn. by repeat split.
    - intros [?|[?|[E ?]]] (H1 & H2 & H3); [lia|lia|].
      specialize (H3 E). lia. }
  destruct (Run_code_regions data sender tx context isCheck rewardPool
              currentBlock)
    as [(Hex & ->)|[(Hex & Hs & ->)|[(Hex & Hs & Hcom & Hb & Hres & ->)
       |(Hex & Hs & com & Hcom & Hres & ->)]]].
  - split; [|split; [|split]]; (split; [done|]); intros (? & _); congruence.
  - split; [|split; [|split]].
    + split; [by intros _|done].
    + split; [done|]. intros (_ & ? & _). lia.
    + split; [done|]. intros (_ & ? & _). lia.
    + split; [done|]. intros (_ & ? & _). lia.
  - split; [|split; [|split]].
    + split; [done|]. intros (_ & ?). lia.
    + split; [by intros _|done].
    + split; [done|]. intros (_ & _ & com & ? & _). congruence.
    + split; [done|]. intros (_ & _ & (com & ? & _) & _). congruence.
  - destruct (Run_checked_code data sender tx context isCheck rewardPool
                (commissionInBaseCoin' tx) com) as [Hf Hn].
    destruct (classic_funded data sender tx context com) as [F|F].
    + rewrite (Hf F).
      split; [|split; [|split]].
      * split; [by destruct (CandidateExists context (PubKey data))|].
        intros (_ & ?). lia.
      * split; [by destruct (CandidateExists context (PubKey data))|].
        intros (_ & _ & Hb & coin & Hc & Hlt).
        destruct (Hres Hb) as (coin' & Hc' & Hle).
        rewrite Hc in Hc'. injection Hc' as <-. lia.
      * split; [by destruct (CandidateExists context (PubKey data))|].
        intros (_ & _ & com' & Hcom' & Hbad).
        rewrite Hcom in Hcom'. injection Hcom' as <-.
        by apply Hnf in Hbad.
      * split.
        -- destruct (CandidateExists context (PubKey data)); [done|].
           intros _. split; [done|]. split; [done|]. split; [|done].
           by exists com.
        -- intros (_ & _ & _ & ->). done.
    + rewrite (Hn F).
      split; [|split; [|split]].
      * split; [done|]. intros (_ & ?). lia.
      * split; [done|].
        intros (_ & _ & Hb & coin & Hc & Hlt).
        destruct (Hres Hb) as (coin' & Hc' & Hle).
        rewrite Hc in Hc'. injection Hc' as <-. lia.
      * split; [|done]. intros _. split; [done|]. split; [done|].
        exists com. split; [done|]. by apply Hnf.
      * split; [done|].
        intros (_ & _ & (com' & Hcom' & F') & _).
        rewrite Hcom in Hcom'. injection Hcom' as <-. done.
Qed.

(** The balances that a committed delegation leaves. *)
Lemma GetBalance_committed data sender tx context com addr symbol :
  GetBalance (committed data sender tx context com) addr symbol
  = GetBalance context addr symbol
    - (if decide ((sender, GasCoin tx) = (addr, symbol)) then com else 0)
    - (if decide ((sender, Coin data) = (addr, symbol))
       then Stake data else 0).
Proof.
  unfold committed, SetNonce, Delegate, GetBalance at 1. simpl.
  fold (GetBalance
          (SubBalance (SubBalance context sender (GasCoin tx) com)
                      sender (Coin data) (Stake data)) addr symbol).
  rewrite !GetBalance_SubBalance.
  repeat case_decide; simplify_eq; try lia; exfalso; congruence.
Qed.

(** X18. [Run] never overdraws: whatever it returns, a balance of the
    state that was not negative before the call is not negative after it.
    The balance checks are what makes the two debits safe, also when both
    fall on one balance. *)
Theorem Run_no_overdraw data sender tx context isCheck rewardPool
  currentBlock out addr symbol :
  Run' data sender tx context isCheck rewardPool currentBlock = Some out ->
  0 <= GetBalance context addr symbol ->
  0 <= GetBalance (state_after out) addr symbol.
Proof.
  intros Hrun Hpos.
  destruct (CoinExists context (GasCoin tx)) eqn:Hex;
    [destruct (Z.lt_ge_cases 0 (Stake data)) as [Hst|Hst];
     [destruct (commission' tx context) as [com|] eqn:Hcom|]|].
  2, 3, 4:
    assert (Hearly : CoinExists context (GasCoin tx) = false
                     \/ Stake data <= 0 \/ commission' tx context = None)
      by (rewrite ?Hex, ?Hcom; auto);
    destruct (Run_returns_early _ _ _ _ _ _ _ _ _ _ _ Hearly Hrun)
      as (_ & -> & _); done.
  rewrite (Run_reaches_checks _ _ _ _ _ _ _ _ _ _ com Hex Hst Hcom) in Hrun.
  injection Hrun as <-.
  destruct (Run_checked_gate data sender tx context isCheck rewardPool
              (commissionInBaseCoin' tx) com) as (_ & G2 & G3).
  destruct (Run_checked_code data sender tx context isCheck rewardPool
              (commissionInBaseCoin' tx) com) as [Hf Hn].
  destruct (classic_funded data sender tx context com) as [F|F].
  2: { destruct G2 as [-> _]; [|done]. right. by rewrite (Hn F). }
  destruct isCheck.
  { destruct G2 as [-> _]; [by left|done]. }
  destruct (CandidateExists context (PubKey data)) eqn:Hcand.
  2: { destruct G2 as [-> _]; [|done]. right. by rewrite (Hf F). }
  destruct G3 as [-> _]; [done|by rewrite (Hf F)|].
  rewrite GetBalance_committed. destruct F as (F1 & F2 & F3).
  repeat case_decide; simplify_eq; try lia.
  match goal with
  | H : GasCoin tx = Coin data |- _ => specialize (F3 (eq_sym H)); rewrite H in F3
  end.
  lia.
Qed.

(** X19. What [Run] reads.  The response depends on the state only
    through the record of the gas coin, the sender's balances of the gas
    coin and of the stake coin, and the existence of the candidate; and on
    the transaction only through the gas price, the gas coin and the gas.
    The nonce of the transaction, the nonces of the accounts, the current
    block, the reward pool, [isCheck], the delegations already made and
    the other balances play no part. *)
Theorem Run_reads data sender tx1 tx2 context1 context2 isCheck1 isCheck2
  rewardPool1 rewardPool2 currentBlock1 currentBlock2 :
  GasPrice tx1 = GasPrice tx2 -> GasCoin tx1 = GasCoin tx2 ->
  Gas tx1 = Gas tx2 ->
  coins context1 !! GasCoin tx1 = coins context2 !! GasCoin tx1 ->
  GetBalance context1 sender (GasCoin tx1)
  = GetBalance context2 sender (GasCoin tx1) ->
  GetBalance context1 sender (Coin data)
  = GetBalance context2 sender (Coin data) ->
  CandidateExists context1 (PubKey data)
  = CandidateExists context2 (PubKey data) ->
  option_map response
    (Run' data sender tx1 context1 isCheck1 rewardPool1 currentBlock1)
  = option_map response
      (Run' data sender tx2 context2 isCheck2 rewardPool2 currentBlock2).
Proof.
  intros Hp Hg Hgas Hcoin Hbg Hbs Hcand.
  assert (Hchecked : forall cib com,
    response (Run_checked data sender tx1 context1 isCheck1 rewardPool1
                          cib com)
    = response (Run_checked data sender tx2 context2 isCheck2 rewardPool2
                            cib com)).
  { intros cib com. unfold Run_checked. rewrite <- Hg, <- Hgas, Hbg, Hbs, Hcand.
    repeat match goal with
           | |- context [if ?b then _ else _] => destruct b; simpl
           end; done. }
  unfold Run, CoinExists, GetStateCoin, commissionInBaseCoin.
  rewrite <- Hg, <- Hgas, <- Hp, <- Hcoin.
  destruct (bool_decide (is_Some (coins context1 !! GasCoin tx1))); simpl;
    [|done].
  destruct (big.Cmp (Stake data) Big0 <? 1); simpl; [done|].
  destruct (bool_decide (GasCoin tx1 <> BaseCoin)).
  - destruct (coins context1 !! GasCoin tx1) as [coin|]; [|done].
    destruct (big.Cmp (ReserveBalance coin) _ <? 0); simpl; [done|].
    f_equal. apply Hchecked.
  - simpl. f_equal. apply Hchecked.
Qed.

End RunProps.

(** The delegation of the example again, as another transaction sees it:
    another nonce, another block, a reward pool that is not empty, and a
    state with other accounts, nonces and delegations. *)
Definition busy_state : StateDB :=
  mkStateDB (<[(2, MNT) := 77]> (balances example_state))
            (<[alice := 41]> ∅)
            (coins example_state)
            (candidates example_state)
            [mkDelegation 2 candidate_key MNT 5].

Lemma Run_reads_witness :
  option_map response
    (example_Run example_data alice example_tx example_state false 0 100)
  = option_map response
      (example_Run example_data alice (mkTransaction 9 1 MNT 50) busy_state
                   true 1000 7).
Proof.
  apply (Run_reads 1 MNT sale_at_par example_data alice example_tx
           (mkTransaction 9 1 MNT 50) example_state busy_state
           false true 0 1000 100 7); reflexivity.
Defined.

Lemma Run_no_overdraw_witness :
  0 <= GetBalance
         (committed example_data alice example_tx example_state 50)
         alice STK.
Proof.
  apply (Run_no_overdraw 1 MNT sale_at_par example_data alice example_tx
           example_state false 0 100
           (mkOutcome (mkResponse OK 50 50 Log_empty)
                      (committed example_data alice example_tx
                                 example_state 50) 50)
           alice STK).
  - vm_compute. reflexivity.
  - vm_compute. discriminate.
Defined.

End transaction_props.

(** ** The JSON form of a delegation, and the version string *)

Module json_props.
Import types transaction.

Lemma hex_digit_inj a b :
  0 <= a < 16 -> 0 <= b < 16 -> hex_digit a = hex_digit b -> a = b.
Proof.
  intros Ha Hb. unfold hex_digit.
  set (digits := list_ascii_of_string "0123456789abcdef").
  assert (Hnd : NoDup digits)
    by (apply (bool_decide_unpack (NoDup digits)); vm_compute; exact I).
  destruct (lookup_lt_is_Some_2 digits (Z.to_nat a)) as [x Hx];
    [change (length digits) with 16%nat; lia|].
  destruct (lookup_lt_is_Some_2 digits (Z.to_nat b)) as [y Hy];
    [change (length digits) with 16%nat; lia|].
  rewrite Hx, Hy. simpl. intros <-.
  pose proof (NoDup_lookup _ _ _ _ Hnd Hx Hy). lia.
Qed.

Lemma Sprintf_x_inj b1 b2 : Sprintf_x b1 = Sprintf_x b2 -> b1 = b2.
Proof.
  revert b2. induction b1 as [|x b1 IH]; intros [|y b2]; simpl; try done.
  intros [= H1 H2 H3].
  pose proof (byte_to_Z_range x). pose proof (byte_to_Z_range y).
  apply hex_digit_inj in H1;
    [|split; [apply Z.div_pos; lia|apply Z.div_lt_upper_bound; lia]..].
  apply hex_digit_inj in H2; [|apply Z.mod_pos_bound; lia..].
  assert (byte_to_Z x = byte_to_Z y) as E.
  { rewrite (Z.div_mod (byte_to_Z x) 16), (Z.div_mod (byte_to_Z y) 16) by lia.
    by rewrite H1, H2. }
  f_equal; [|by apply IH].
  by rewrite <- (byte_of_to_Z x), <- (byte_of_to_Z y), E.
Qed.

Lemma Sprintf_x_length b :
  String.length (Sprintf_x b) = (2 * length b)%nat.
Proof. induction b as [|x b IH]; simpl; [done|]. rewrite IH. lia. Qed.

Section Marshal.

Variable json_Marshal : DelegateData_json -> result (list byte).

(** X20. The JSON form of a delegation loses nothing.  The three fields
    that [MarshalJSON] hands to the encoder ("Mp" and two lowercase
    hexadecimal digits for each byte of the key, the coin, the stake in
    decimal) determine the delegation: two delegations with the same
    fields are equal, and with an encoder that is injective so are two
    delegations with the same JSON bytes. *)
Theorem MarshalJSON_faithful (d1 d2 : DelegateData) :
  (MarshalJSON_struct d1 = MarshalJSON_struct d2 <-> d1 = d2)
  /\ String.length (json_pub_key (MarshalJSON_struct d1))
     = (2 + 2 * length (PubKey d1))%nat
  /\ ((forall x y, json_Marshal x = json_Marshal y -> x = y) ->
      MarshalJSON json_Marshal d1 = MarshalJSON json_Marshal d2 -> d1 = d2).
Proof.
  assert (Hinj : MarshalJSON_struct d1 = MarshalJSON_struct d2 -> d1 = d2).
  { destruct d1 as [k1 c1 s1], d2 as [k2 c2 s2].
    unfold MarshalJSON_struct, big.String. simpl.
    intros [= Hk -> Hs]. apply Sprintf_x_inj in Hk. apply (inj pretty) in Hs.
    by subst. }
  split; [split; [exact Hinj|by intros ->]|].
  split.
  - unfold MarshalJSON_struct. cbn [json_pub_key].
    change (String.length ("Mp" +:+ Sprintf_x (PubKey d1)))
      with (Datatypes.S (Datatypes.S (String.length (Sprintf_x (PubKey d1))))).
    rewrite Sprintf_x_length. lia.
  - intros Hj E. apply Hinj, Hj, E.
Qed.

End Marshal.

End json_props.

Module version_props.
Import version.

(** X21. The version string after initialization.  It always starts with
    the three components joined by dots; it is exactly that when no commit
    was set, and that followed by a dash and the commit otherwise; so the
    commit is read back from it, and different commits give different
    versions. *)
Theorem init_Version (GitCommit GitCommit' : string) :
  Version = Maj +:+ "." +:+ Min +:+ "." +:+ Fix
  /\ (exists rest, init GitCommit = Version +:+ rest
                   /\ (rest = EmptyString <-> GitCommit = EmptyString)
                   /\ (GitCommit <> EmptyString -> rest = "-" +:+ GitCommit))
  /\ (init GitCommit = init GitCommit' <-> GitCommit = GitCommit').
Proof.
  split; [reflexivity|]. split.
  - unfold init. destruct (decide (GitCommit = EmptyString)) as [->|Hne].
    + exists EmptyString. by repeat split.
    + rewrite bool_decide_eq_true_2 by done. exists ("-" +:+ GitCommit).
      split; [done|]. split; [|done]. split; [done|]. by intros ->.
  - split; [|by intros ->]. unfold init.
    destruct (decide (GitCommit = EmptyString)) as [->|H1];
      destruct (decide (GitCommit' = EmptyString)) as [->|H2];
      rewrite ?(bool_decide_eq_true_2 _ H1), ?(bool_decide_eq_true_2 _ H2);
      simpl; try done; by intros [= ?].
Qed.

End version_props.
